(** * extract_mrpack.py: the download pipeline of the mrpack extractor

    A shallow embedding of [src/extract_mrpack.py] and the properties of
    its download pipeline.

    Modelling conventions.
    - A manifest is whatever [json.loads] returns: an arbitrary JSON value.
      Nothing in the program validates it, so every dictionary access of the
      source is modelled on the untyped value, with Python's truthiness,
      [dict.get], [in] and subscripting written out, and the exceptions
      these raise on ill-typed data.
    - A string is a sequence of characters with code points below 256, one
      [ascii] value each (in a literal a character above 127 is written by
      its code, as in ["233"%char] for e-acute); text with other characters
      is outside the model.  [str.lower] and [str.isalnum] are Python's on
      these characters.  JSON numbers are integers (a fractional number is
      used by the program only through its truthiness and its not being a
      string).
    - Paths are POSIX [pathlib] paths.  [main] resolves both paths of the
      command line, so every path of a run is absolute: a path is the list
      of its components below the root.
    - The disk is a finite map from resolved locations to the bytes of the
      regular file stored there.  Whether [mkdir], [open] and [unlink]
      succeed at a location (permissions, a directory in the way) is decided
      by the environment, which records the answers the file system gives
      during the run.  Directories are not stored, and a file or a directory
      that one download puts in the way of another is not modelled: a
      statement that compares two runs in the same environment assumes
      destinations none of which is, or lies below, another.
    - [requests], [tqdm], [hashlib], [json] and [str] are libraries: the
      environment says what a request returns and whether the two optional
      imports succeeded; the digest functions, the JSON parser and [str] on
      JSON values are operations of a class.
    - The progress bar has no effect on the result or on the disk; the
      [position] and [total_size] arguments, which only feed it, are carried
      but not interpreted.  Elapsed time is not modelled.
    - The worker pool runs every submitted call to completion and stores its
      result or exception in its future; [as_completed] yields every future
      once, in an order the program does not control.  A task's effect on
      the disk is applied atomically, in completion order. *)

From Stdlib Require Import Ascii String Sorted.
From Stdlib.Strings Require Import Byte.
From stdpp Require Import gmap strings list fin_maps.

Set Default Proof Using "Type".
#[local] Set Warnings "-register-all".
#[local] Open Scope string_scope.
#[local] Open Scope list_scope.

(** ** Python values *)

Module Py.

(** The value [json.loads] returns. *)
Inductive json : Type :=
| JNull
| JBool (b : bool)
| JNum (z : Z)
| JStr (s : string)
| JArr (l : list json)
| JObj (m : gmap string json).

Inductive exn : Type :=
| RuntimeError (msg : string)
| ValueError (msg : string)
| FileNotFoundError (msg : string)
| OSError (msg : string)
| RequestException (msg : string)
| AttributeError
| TypeError
| KeyError
| IndexError.

(** A computation either returns or raises. *)
Inductive result (A : Type) : Type :=
| Ok (a : A)
| Raise (e : exn).
Arguments Ok {A} a.
Arguments Raise {A} e.

Definition is_ok {A} (r : result A) : bool :=
  match r with Ok _ => true | Raise _ => false end.

(** [bool(v)] *)
Definition truthy (v : json) : bool :=
  match v with
  | JNull => false
  | JBool b => b
  | JNum z => negb (Z.eqb z 0)
  | JStr s => negb (String.eqb s "")
  | JArr l => negb (bool_decide (l = []))
  | JObj m => negb (bool_decide (m = ∅))
  end.

(** [v.get(k)]: [None] (here [JNull]) when the key is absent; only a dict has
    a [get]. *)
Definition get (v : json) (k : string) : result json :=
  match v with
  | JObj m => Ok (default JNull (m !! k))
  | _ => Raise AttributeError
  end.

(** [a or b] *)
Definition py_or (a b : json) : json := if truthy a then a else b.

Definition is_str (v : json) (s : string) : bool :=
  match v with JStr s' => String.eqb s' s | _ => false end.

(** [needle in hay] on strings: [needle] occurs in [hay]. *)
Fixpoint substring_of (needle hay : string) : bool :=
  String.prefix needle hay ||
  match hay with
  | EmptyString => false
  | String _ hay' => substring_of needle hay'
  end.

(** [k in v] for a string [k]. *)
Definition contains (k : string) (v : json) : result bool :=
  match v with
  | JObj m => Ok (bool_decide (is_Some (m !! k)))
  | JArr l => Ok (existsb (fun x => is_str x k) l)
  | JStr s => Ok (substring_of k s)
  | JNull | JBool _ | JNum _ => Raise TypeError
  end.

(** [v[k]] for a string [k]. *)
Definition getitem (v : json) (k : string) : result json :=
  match v with
  | JObj m => match m !! k with Some x => Ok x | None => Raise KeyError end
  | _ => Raise TypeError
  end.

(** [v[0]] *)
Definition getitem0 (v : json) : result json :=
  match v with
  | JArr (x :: _) => Ok x
  | JArr [] => Raise IndexError
  | JStr (String c _) => Ok (JStr (String c EmptyString))
  | JStr EmptyString => Raise IndexError
  | JObj _ => Raise KeyError
  | JNull | JBool _ | JNum _ => Raise TypeError
  end.

(** The upper-case letters below 256 are A-Z and the accented capitals
    192-214 and 216-222; each is 32 below its lower-case letter. *)
Definition lower_ascii (c : ascii) : ascii :=
  let n := nat_of_ascii c in
  if (Nat.leb 65 n && Nat.leb n 90) || (Nat.leb 192 n && Nat.leb n 214)
     || (Nat.leb 216 n && Nat.leb n 222)
  then ascii_of_nat (n + 32) else c.

(** [s.lower()] *)
Fixpoint lower (s : string) : string :=
  match s with
  | EmptyString => EmptyString
  | String c s' => String (lower_ascii c) (lower s')
  end.

(** [s.replace('\\', '/')] *)
Fixpoint replace_backslash (s : string) : string :=
  match s with
  | EmptyString => EmptyString
  | String c s' =>
      String (if Ascii.eqb c "\" then "/"%char else c) (replace_backslash s')
  end.

(** [s.split('/')]: never empty. *)
Fixpoint split_slash (s : string) : list string :=
  match s with
  | EmptyString => [EmptyString]
  | String c s' =>
      if Ascii.eqb c "/" then EmptyString :: split_slash s'
      else match split_slash s' with
           | [] => [String c EmptyString]
           | w :: ws => String c w :: ws
           end
  end.

(** [s[n:]] *)
Fixpoint drop_chars (n : nat) (s : string) : string :=
  match n, s with
  | 0, _ => s
  | S n', String _ s' => drop_chars n' s'
  | S _, EmptyString => EmptyString
  end.

(** [s.endswith('/')] *)
Fixpoint ends_with_slash (s : string) : bool :=
  match s with
  | EmptyString => false
  | String c EmptyString => Ascii.eqb c "/"
  | String _ s' => ends_with_slash s'
  end.

End Py.
Export Py.

(** ** Paths ([pathlib.PurePosixPath], absolute) *)

Module PathLib.

Definition path : Type := list string.

(** The components a string contributes: empty components and ["."] are
    dropped when a path is parsed, [".."] is kept. *)
Definition parse_parts (s : string) : list string :=
  filter (fun c => c ≠ "" ∧ c ≠ ".") (split_slash s).

Definition is_absolute (s : string) : bool := String.prefix "/" s.

(** [base.joinpath(s)]: an absolute [s] replaces [base]. *)
Definition joinpath (base : path) (s : string) : path :=
  if is_absolute s then parse_parts s else base ++ parse_parts s.

(** [p.parent]: the root is its own parent. *)
Definition parent (p : path) : path := removelast p.

(** [str(p)] *)
Definition path_str (p : path) : string :=
  match p with
  | [] => "/"
  | _ => foldr (fun c acc => "/" +:+ c +:+ acc) "" p
  end.

(** The location the operating system reaches through [p]: every [".."]
    steps back to the parent directory (the parent of the root is the
    root).  Symbolic links are not modelled. *)
Definition resolve (p : path) : path :=
  foldl (fun acc c => if String.eqb c ".." then removelast acc else acc ++ [c]) [] p.

(** [p] denotes a location at or below the directory [root]. *)
Definition inside (root p : path) : Prop := resolve root `prefix_of` resolve p.

End PathLib.
Export PathLib.

(** ** The environment of a run *)

Module World.

(** The disk: the regular files, by resolved location. *)
Abbreviation disk := (gmap (list string) (list byte)).

(** What a streamed response yields: its chunks, then possibly an error of
    the transport while the body is read.  Every exception of the transport
    is a [RequestException] carrying the cause. *)
Record stream : Type := {
  content_length : option string;
  chunks : list (list byte);
  stream_error : option string
}.

(** [requests.get(url, stream=True, timeout=30)], which may raise, followed
    by [raise_for_status()], which may raise, then the body. *)
Inductive response : Type :=
| ConnectFail (cause : string)
| StatusFail (cause : string)
| Streaming (s : stream).

Record env : Type := {
  requests_available : bool;
  tqdm_available : bool;
  requests_get : string → response;
  mkdir_ok : path → bool;
  open_ok : path → bool;
  unlink_ok : path → bool
}.

(** The library functions the program calls: the two digests as
    [hexdigest()] of everything fed to the hash object, [json.loads] of the
    decoded bytes, [str] of a parsed value, and [zipfile]'s reading of a
    container ([None]: [BadZipFile]) into its members, in archive order. *)
Class Runtime : Type := {
  sha1_hexdigest : list byte → string;
  sha512_hexdigest : list byte → string;
  json_loads : list byte → result json;
  str_of : json → string;
  zip_members : list byte → option (list (string * list byte))
}.

(** Computations on a state [S] that may raise. *)
Definition M (S A : Type) : Type := S → S * result A.

Definition ret {S A} (a : A) : M S A := fun s => (s, Ok a).

Definition bind {S A B} (m : M S A) (k : A → M S B) : M S B :=
  fun s => match m s with
           | (s', Ok a) => k a s'
           | (s', Raise e) => (s', Raise e)
           end.

Definition raise {S A} (e : exn) : M S A := fun s => (s, Raise e).

Definition lift {S A} (r : result A) : M S A := fun s => (s, r).

(** [try: m except Exception as e: h e] *)
Definition try_except {S A} (m : M S A) (h : exn → M S A) : M S A :=
  fun s => match m s with
           | (s', Ok a) => (s', Ok a)
           | (s', Raise e) => h e s'
           end.

(** Computations on the disk. *)
Abbreviation IO := (M disk).

Definition rbind {A B} (r : result A) (k : A → result B) : result B :=
  match r with Ok a => k a | Raise e => Raise e end.

End World.
Export World.

Declare Scope io_scope.
Delimit Scope io_scope with io.
Notation "x <- m ;; k" := (bind m (fun x => k))
  (at level 100, m at next level, right associativity) : io_scope.
Notation "m ;; k" := (bind m (fun _ => k))
  (at level 100, right associativity) : io_scope.

Declare Scope result_scope.
Delimit Scope result_scope with res.
Notation "x <- m ;; k" := (rbind m (fun x => k))
  (at level 100, m at next level, right associativity) : result_scope.
Notation "m ;; k" := (rbind m (fun _ => k))
  (at level 100, right associativity) : result_scope.

(** ** File-system calls *)

Module Fs.

(** [p.exists()] for a regular file. *)
Definition exists_ (p : path) (d : disk) : bool :=
  bool_decide (is_Some (d !! resolve p)).

(** [p.mkdir(parents=True, exist_ok=True)]: it succeeds where the
    environment says so; the directories made are not stored. *)
Definition mkdir (E : env) (p : path) : IO unit :=
  if mkdir_ok E (resolve p) then ret tt
  else raise (OSError ("cannot create directory " +:+ path_str p)).

(** [open(p, 'wb')]: where the environment lets it, creates or truncates
    the file. *)
Definition open_wb (E : env) (p : path) : IO unit :=
  if open_ok E (resolve p)
  then fun d => (<[resolve p := []]> d, Ok tt)
  else raise (OSError ("cannot open " +:+ path_str p)).

(** [f.write(chunk)] *)
Definition write (p : path) (chunk : list byte) : IO unit :=
  fun d => (alter (fun b => b ++ chunk) (resolve p) d, Ok tt).

(** [p.unlink()] *)
Definition unlink (E : env) (p : path) : IO unit :=
  if unlink_ok E (resolve p)
  then fun d => (delete (resolve p) d, Ok tt)
  else raise (OSError ("cannot remove " +:+ path_str p)).

End Fs.

(** ** [download_file] *)

Section Download.
Context {RT : Runtime}.
Variable E : env.

(** A [hashlib] object: the bytes it was fed; [None] when not requested. *)
Definition hasher : Type := option (list byte).

(** [hashlib.sha1() if expected_hashes and 'sha1' in expected_hashes else None]
    (lines 93-94) *)
Definition new_hasher (algo : string) (expected_hashes : json) : result hasher :=
  if truthy expected_hashes then
    (c <- contains algo expected_hashes ;;
     Ok (if c then Some [] else None))%res
  else Ok None.

(** [if h: h.update(chunk)] *)
Definition update (h : hasher) (chunk : list byte) : hasher :=
  (fun acc => acc ++ chunk) <$> h.

(** The loop of lines 109-117 over what [r.iter_content] yields. *)
Fixpoint write_chunks (dest : path) (cs : list (list byte)) (err : option string)
    (h1 h512 : hasher) : IO (hasher * hasher) :=
  match cs with
  | [] =>
      match err with
      | Some cause => raise (RequestException cause)
      | None => ret (h1, h512)
      end
  | chunk :: cs' =>
      if bool_decide (chunk = []) then write_chunks dest cs' err h1 h512
      else (Fs.write dest chunk ;;
            write_chunks dest cs' err (update h1 chunk) (update h512 chunk))%io
  end.

(** The body of the [try] (lines 97-119).  A URL that is not a string makes
    [requests.get] raise. *)
Definition fetch (url : json) (dest : path) (h1 h512 : hasher)
    : IO (hasher * hasher) :=
  match url with
  | JStr u =>
      match requests_get E u with
      | ConnectFail cause => raise (RequestException cause)
      | StatusFail cause => raise (RequestException cause)
      | Streaming s =>
          (Fs.open_wb E dest ;;
           write_chunks dest (chunks s) (stream_error s) h1 h512)%io
      end
  | _ => raise (RequestException "Invalid URL")
  end.

(** The handler of lines 120-127: remove the file if it is there, swallow
    whatever the removal raises, re-raise the original exception. *)
Definition cleanup (dest : path) : IO unit :=
  try_except
    (fun d => if Fs.exists_ dest d then Fs.unlink E dest d else ret tt d)
    (fun _ => ret tt).

Definition mismatch_message (algo : string) (dest : path) (expected got : string)
    : string :=
  algo +:+ " mismatch for " +:+ path_str dest +:+ ": expected " +:+ expected
       +:+ ", got " +:+ got.

(** One [if] of lines 131-138; [.lower()] exists on strings only. *)
Definition verify_one (label algo : string) (hexdigest : list byte → string)
    (dest : path) (expected_hashes : json) (h : hasher) : result unit :=
  (c <- contains algo expected_hashes ;;
   match c, h with
   | true, Some data =>
       let got := hexdigest data in
       e <- getitem expected_hashes algo ;;
       match e with
       | JStr expected =>
           if bool_decide (lower got ≠ lower expected)
           then Raise (ValueError (mismatch_message label dest expected got))
           else Ok tt
       | _ => Raise AttributeError
       end
   | _, _ => Ok tt
   end)%res.

(** Lines 130-138. *)
Definition verify (dest : path) (expected_hashes : json) (h1 h512 : hasher)
    : result unit :=
  if truthy expected_hashes then
    (verify_one "SHA1" "sha1" sha1_hexdigest dest expected_hashes h1 ;;
     verify_one "SHA512" "sha512" sha512_hexdigest dest expected_hashes h512)%res
  else Ok tt.

Definition download_file (url : json) (dest : path) (expected_hashes : json)
    (position : nat) (total_size : json) : IO bool :=
  if negb (requests_available E) then
    raise (RuntimeError "requests library is required to download files. Install with: pip install -r requirements.txt")
  else if negb (tqdm_available E) then
    raise (RuntimeError "tqdm is required for progress bars. Install with: pip install -r requirements.txt")
  else
    (Fs.mkdir E (parent dest) ;;
     h1 <- lift (new_hasher "sha1" expected_hashes) ;;
     h512 <- lift (new_hasher "sha512" expected_hashes) ;;
     hs <- try_except (fetch url dest h1 h512)
                      (fun e => cleanup dest ;; raise e) ;;
     lift (verify dest expected_hashes (fst hs) (snd hs)) ;;
     ret true)%io.

End Download.

(** ** The archive *)

Module Archive.

Definition zipfile : Type := list (string * list byte).

(** [z.namelist()] *)
Definition namelist (z : zipfile) : list string := z.*1.

(** [z.read(name)], [z.open(name)]: the last member of that name. *)
Definition read (z : zipfile) (name : string) : list byte :=
  match list_find (fun m => m.1 = name) (reverse z) with
  | Some (_, (_, content)) => content
  | None => []
  end.

(** [name.replace('\\', '/').split('/')[-1].lower() == 'modrinth.index.json'] *)
Definition is_index_name (name : string) : bool :=
  String.eqb (lower (List.last (split_slash (replace_backslash name)) ""))
             "modrinth.index.json".

Definition is_overrides_name (name : string) : bool :=
  let n := replace_backslash name in
  String.prefix "overrides/" n || String.eqb n "overrides" || String.eqb n "overrides/".

Definition find_index_and_overrides (z : zipfile)
    : option string * bool * option string :=
  let index_member := List.find is_index_name (namelist z) in
  let overrides_prefix :=
    match List.find is_overrides_name (namelist z) with
    | Some _ => Some "overrides/"
    | None => None
    end in
  (index_member, bool_decide (is_Some overrides_prefix), overrides_prefix).

End Archive.
Export Archive.

(** ** [sanitize_for_filename] and the default output folder *)

Module Naming.

(** The code points below 256 on which [str.isalnum] holds: the digits and
    letters of ASCII, the ordinal indicators (170, 186), the superscript
    digits (178, 179, 185), the micro sign (181), the fractions (188-190)
    and the accented letters (192-255 but for the two operators 215 and
    247). *)
Definition alnum_ranges : list (nat * nat) :=
  [(48, 57); (65, 90); (97, 122); (170, 170); (178, 179); (181, 181);
   (185, 186); (188, 190); (192, 214); (216, 246); (248, 255)].

(** [c.isalnum()] *)
Definition isalnum (c : ascii) : bool :=
  let n := nat_of_ascii c in
  existsb (fun r => Nat.leb r.1 n && Nat.leb n r.2) alnum_ranges.

Definition keep_char (c : ascii) : bool :=
  isalnum c || existsb (Ascii.eqb c) (list_ascii_of_string " ._-()").

Fixpoint lstrip (s : string) : string :=
  match s with
  | String c s' => if Ascii.eqb c " " then lstrip s' else s
  | EmptyString => EmptyString
  end.

Definition rev_string (s : string) : string :=
  string_of_list_ascii (rev (list_ascii_of_string s)).

(** [s.strip()]; no white-space character but the space passes
    [keep_char], so after the replacement the only blank left is the
    space. *)
Definition strip (s : string) : string :=
  rev_string (lstrip (rev_string (lstrip s))).

Definition sanitize_for_filename (name : string) : string :=
  strip (string_of_list_ascii
           (map (fun c => if keep_char c then c else "_"%char)
                (list_ascii_of_string name))).

(** [name[:name.rfind('.')]] when the dot is neither first nor last. *)
Definition stem (name : string) : string :=
  let cs := list_ascii_of_string name in
  match list_find (fun c => c = "."%char) (reverse cs) with
  | Some (k, _) =>
      let i := length cs - 1 - k in
      if Nat.ltb 0 i && Nat.ltb i (length cs - 1)
      then string_of_list_ascii (take i cs)
      else name
  | None => name
  end.

(** [p.with_suffix('')] *)
Definition with_suffix_empty (p : path) : result path :=
  match reverse p with
  | [] => Raise (ValueError "PosixPath('/') has an empty name")
  | name :: _ => Ok (removelast p ++ [stem name])
  end.

End Naming.
Export Naming.

(** ** [process_mrpack] *)

Module Run.

(** What the program prints, one constructor per [print]. *)
Inductive event : Type :=
| Extracting (outdir : path)
| Extracted (cnt : nat)
| NoOverrides
| NoIndex
| NoFilesListed
| NoFilesAfterFilter
| SkipNoPath (idx total : nat)
| SkipNoUrl (idx total : nat) (path : json)
| Scheduling (idx total : nat) (url : json) (dest : path)
| Failed (idx total : nat) (url : json) (e : exn)
| Summary (succeeded scheduled : nat)
| Error (e : exn).

(** The state of a run: the disk and the standard output. *)
Record state : Type := { files : disk; stdout : list event }.

Definition print (ev : event) : M state unit :=
  fun s => ({| files := files s; stdout := stdout s ++ [ev] |}, Ok tt).

Definition on_disk {A} (m : IO A) : M state A :=
  fun s => let '(d, r) := m (files s) in
           ({| files := d; stdout := stdout s |}, r).

(** A future: the call submitted to the pool (line 232) and the tuple kept
    for it in [futures] (line 233). *)
Record task : Type := {
  idx : nat;
  total : nat;
  path_of : json;
  url : json;
  dest : path;
  expected_hashes : json;
  position : nat;
  size : json
}.

(** The locals of the scheduling loop. *)
Record sched : Type := {
  futures : list task;
  scheduled : nat;
  position_counter : nat;
  printed : list event
}.

(** The locals the summary is computed from. *)
Record report : Type := {
  r_scheduled : nat;
  r_succeeded : nat;
  r_failed : nat
}.

(** The locals before the first iteration (lines 205-210). *)
Definition idle : sched :=
  {| futures := []; scheduled := 0; position_counter := 0; printed := [] |}.

(** The worker pool as the program sees it: [as_completed] yields every
    future once, in some order. *)
Record pool : Type := {
  as_completed : list task → list task;
  as_completed_perm : ∀ fs, as_completed fs ≡ₚ fs
}.

End Run.
Export Run.

Section Process.
Context {RT : Runtime}.
Variable E : env.
Variable P : pool.

(** [extract_overrides]: the loop body for one member, [count] threaded. *)
Definition extract_member (z : zipfile) (overrides_prefix : string)
    (dest : path) (count : nat) (member : string) : IO nat :=
  let relpath :=
    drop_chars (String.length overrides_prefix) (replace_backslash member) in
  if String.eqb relpath "" then ret count
  else
    let target := joinpath dest relpath in
    if ends_with_slash member then (Fs.mkdir E target ;; ret count)%io
    else (Fs.mkdir E (parent target) ;;
          Fs.open_wb E target ;;
          Fs.write target (read z member) ;;
          ret (count + 1))%io.

Fixpoint for_each {S A B} (f : A → B → M S A) (a : A) (l : list B) : M S A :=
  match l with
  | [] => ret a
  | b :: l' => (a' <- f a b ;; for_each f a' l')%io
  end.

Definition extract_overrides (z : zipfile) (overrides_prefix : string)
    (dest : path) : IO nat :=
  let members :=
    List.filter (fun n => String.prefix overrides_prefix (replace_backslash n))
                (namelist z) in
  for_each (extract_member z overrides_prefix dest) 0 members.

(** Lines 159-164, when no [--outdir] was given. *)
Definition default_outdir (mrpack_path : path) (pack_data : option json)
    : result path :=
  match pack_data with
  | Some (JObj m) =>
      match m !! "name" with
      | Some name =>
          if truthy (JObj m) && truthy name then
            let folder_name :=
              sanitize_for_filename
                (match name with JStr s => s | _ => str_of name end) in
            Ok (joinpath (parent mrpack_path) folder_name)
          else with_suffix_empty mrpack_path
      | None => with_suffix_empty mrpack_path
      end
  | _ => with_suffix_empty mrpack_path
  end.

(** [for entry in v]: what iterating a parsed value yields. *)
Definition iterate (v : json) : result (list json) :=
  match v with
  | JArr l => Ok l
  | JObj m => Ok (JStr <$> (map_to_list m).*1)
  | JStr s => Ok ((fun c => JStr (String c EmptyString)) <$> list_ascii_of_string s)
  | JNull | JBool _ | JNum _ => Raise TypeError
  end.

(** Lines 189-195: whether the entry passes the server filter. *)
Definition server_relevant (entry : json) : result bool :=
  (env0 <- get entry "env" ;;
   let env := py_or env0 (JObj ∅) in
   server_env0 <- get env "server" ;;
   let server_env :=
     match server_env0 with JNull => JStr "unknown" | v => v end in
   Ok (is_str server_env "required" || is_str server_env "optional"
       || is_str server_env "unknown"))%res.

(** Lines 186-196. *)
Fixpoint filter_files (server_files_only : bool) (files : list json)
    : result (list json) :=
  match files with
  | [] => Ok []
  | entry :: rest =>
      (keep <- (if server_files_only then server_relevant entry else Ok true) ;;
       kept <- filter_files server_files_only rest ;;
       Ok (if keep then entry :: kept else kept))%res
  end.

(** [outdir.joinpath(path)]: the argument must be a string. *)
Definition joinpath_value (outdir : path) (p : json) : result path :=
  match p with
  | JStr s => Ok (joinpath outdir s)
  | _ => Raise TypeError
  end.

(** One iteration of the scheduling loop (lines 216-234). *)
Definition schedule_entry (outdir : path) (verify_hashes : bool)
    (total idx : nat) (entry : json) (st : sched) : result sched :=
  (path <- get entry "path" ;;
   if negb (truthy path) then
     Ok {| futures := futures st; scheduled := scheduled st;
           position_counter := position_counter st;
           printed := printed st ++ [SkipNoPath idx total] |}
   else
     downloads0 <- get entry "downloads" ;;
     let downloads1 := py_or downloads0 (JArr []) in
     let downloads :=
       match downloads1 with JStr _ => JArr [downloads1] | _ => downloads1 end in
     if negb (truthy downloads) then
       Ok {| futures := futures st; scheduled := scheduled st;
             position_counter := position_counter st;
             printed := printed st ++ [SkipNoUrl idx total path] |}
     else
       url <- getitem0 downloads ;;
       dest <- joinpath_value outdir path ;;
       hashes <- (if verify_hashes then get entry "hashes" else Ok JNull) ;;
       size0 <- get entry "fileSize" ;;
       let size := py_or size0 JNull in
       let fut := {| idx := idx; total := total; path_of := path; url := url;
                     dest := dest; expected_hashes := hashes;
                     position := position_counter st; size := size |} in
       Ok {| futures := futures st ++ [fut];
             scheduled := scheduled st + 1;
             position_counter := position_counter st + 1;
             printed := printed st ++ [Scheduling idx total url dest] |})%res.

(** The scheduling loop (line 215): stops at the first exception, keeping
    what was submitted and printed before it. *)
Fixpoint schedule (outdir : path) (verify_hashes : bool) (total idx : nat)
    (entries : list json) (st : sched) : sched * result unit :=
  match entries with
  | [] => (st, Ok tt)
  | entry :: rest =>
      match schedule_entry outdir verify_hashes total idx entry st with
      | Ok st' => schedule outdir verify_hashes total (S idx) rest st'
      | Raise e => (st, Raise e)
      end
  end.

(** The call a future runs. *)
Definition run_task (t : task) : IO bool :=
  download_file E (url t) (dest t) (expected_hashes t) (position t) (size t).

(** One iteration of the collecting loop (lines 238-245). *)
Definition collect_one (r : report) (fut : task) : M state report :=
  try_except
    (on_disk (run_task fut) ;;
     ret {| r_scheduled := r_scheduled r; r_succeeded := r_succeeded r + 1;
            r_failed := r_failed r |})%io
    (fun e =>
       print (Failed (idx fut) (total fut) (url fut) e) ;;
       ret {| r_scheduled := r_scheduled r; r_succeeded := r_succeeded r;
              r_failed := r_failed r + 1 |})%io.

(** Leaving the [with] block on an exception: the pool still runs what was
    submitted; nothing is collected. *)
Definition drain (futs : list task) : M state unit :=
  for_each (fun _ fut => try_except (on_disk (run_task fut) ;; ret tt)%io
                                    (fun _ => ret tt))
           tt (as_completed P futs).

(** Lines 203-253: the download phase over the filtered list; returns the
    counters the summary is printed from. *)
Definition download_phase (outdir : path) (verify_hashes : bool)
    (files_to_download : list json) : M state report :=
  let total := length files_to_download in
  let '(st, r) :=
    schedule outdir verify_hashes total 1 files_to_download idle in
  (for_each (fun _ ev => print ev) tt (printed st) ;;
   match r with
   | Raise e => (drain (futures st) ;; raise e)
   | Ok _ =>
       rep <- for_each collect_one
                {| r_scheduled := scheduled st; r_succeeded := 0; r_failed := 0 |}
                (as_completed P (futures st)) ;;
       print (Summary (r_succeeded rep) (r_scheduled rep)) ;;
       ret rep
   end)%io.

(** Lines 150-253, inside [with zipfile.ZipFile(...) as z]. *)
Definition process_archive (z : zipfile) (mrpack_path : path)
    (outdir : option path) (verify_hashes server_files_only : bool)
    : M state unit :=
  let '(index_member, has_overrides, overrides_prefix) :=
    find_index_and_overrides z in
  (pack_data <- match index_member with
                | Some name => (v <- lift (json_loads (read z name)) ;; ret (Some v))
                | None => ret None
                end ;;
   outdir <- match outdir with
             | Some o => ret o
             | None => lift (default_outdir mrpack_path pack_data)
             end ;;
   on_disk (Fs.mkdir E outdir) ;;
   match has_overrides, overrides_prefix with
   | true, Some prefix =>
       (print (Extracting outdir) ;;
        cnt <- on_disk (extract_overrides z prefix outdir) ;;
        print (Extracted cnt))
   | _, _ => print NoOverrides
   end ;;
   match pack_data with
   | None => print NoIndex
   | Some pack_data =>
       if negb (truthy pack_data) then print NoIndex
       else
         files <- lift (get pack_data "files") ;;
         if negb (truthy files) then print NoFilesListed
         else
           entries <- lift (iterate files) ;;
           files_to_download <- lift (filter_files server_files_only entries) ;;
           if bool_decide (files_to_download = []) then print NoFilesAfterFilter
           else (download_phase outdir verify_hashes files_to_download ;; ret tt)
   end)%io.

(** [process_mrpack]: the archive must exist and be a zip container. *)
Definition process_mrpack (mrpack_path : path) (outdir : option path)
    (verify_hashes server_files_only : bool) : M state unit :=
  fun s =>
    match files s !! resolve mrpack_path with
    | None =>
        raise (FileNotFoundError ("mrpack not found: " +:+ path_str mrpack_path)) s
    | Some bytes =>
        match zip_members bytes with
        | None =>
            raise (RuntimeError ("File is not a valid zip archive: "
                                 +:+ path_str mrpack_path)) s
        | Some z =>
            process_archive z mrpack_path outdir verify_hashes server_files_only s
        end
    end.

(** The parsed command line. *)
Record args : Type := {
  mrpack : path;
  outdir_arg : option path;
  verify_hashes_arg : bool;
  server_files_only_arg : bool
}.

(** [main]: the final state and the exit code of the process. *)
Definition main (a : args) (s : state) : state * Z :=
  match try_except
          (process_mrpack (mrpack a) (outdir_arg a) (verify_hashes_arg a)
                          (server_files_only_arg a) ;; ret 0%Z)%io
          (fun e => print (Error e) ;; ret 2%Z)%io s with
  | (s', Ok code) => (s', code)
  | (s', Raise _) => (s', 2%Z)
  end.

End Process.

(** * Derived definitions

    Closed forms of what the code computes, proved equal to the code below,
    and the concrete worlds the statements are tried on. *)

Section Derived.
Context {RT : Runtime}.
Variable E : env.

(** Everything the response streamed. *)
Definition body (s : stream) : list byte := concat (chunks s).

(** The disk after the handler of lines 120-127. *)
Definition cleaned (dest : path) (d : disk) : disk :=
  if Fs.exists_ dest d && unlink_ok E (resolve dest)
  then delete (resolve dest) d else d.

(** What the call returns or raises: a function of the environment and the
    arguments alone, not of the disk. *)
Definition outcome (url : json) (dest : path) (expected_hashes : json)
    : result bool :=
  if negb (requests_available E) then
    Raise (RuntimeError "requests library is required to download files. Install with: pip install -r requirements.txt")
  else if negb (tqdm_available E) then
    Raise (RuntimeError "tqdm is required for progress bars. Install with: pip install -r requirements.txt")
  else if negb (mkdir_ok E (resolve (parent dest))) then
    Raise (OSError ("cannot create directory " +:+ path_str (parent dest)))
  else
    (h1 <- new_hasher "sha1" expected_hashes ;;
     h512 <- new_hasher "sha512" expected_hashes ;;
     match url with
     | JStr u =>
         match requests_get E u with
         | ConnectFail cause | StatusFail cause => Raise (RequestException cause)
         | Streaming s =>
             if open_ok E (resolve dest) then
               match stream_error s with
               | Some cause => Raise (RequestException cause)
               | None =>
                   verify dest expected_hashes (update h1 (body s))
                          (update h512 (body s)) ;;
                   Ok true
               end
             else Raise (OSError ("cannot open " +:+ path_str dest))
         end
     | _ => Raise (RequestException "Invalid URL")
     end)%res.

(** The disk the call leaves. *)
Definition disk_after (url : json) (dest : path) (expected_hashes : json)
    (d : disk) : disk :=
  if requests_available E && tqdm_available E
     && mkdir_ok E (resolve (parent dest))
     && is_ok (new_hasher "sha1" expected_hashes)
     && is_ok (new_hasher "sha512" expected_hashes)
  then
    match url with
    | JStr u =>
        match requests_get E u with
        | ConnectFail _ | StatusFail _ => cleaned dest d
        | Streaming s =>
            if open_ok E (resolve dest) then
              match stream_error s with
              | Some _ => cleaned dest (<[resolve dest := body s]> d)
              | None => <[resolve dest := body s]> d
              end
            else cleaned dest d
        end
    | _ => cleaned dest d
    end
  else d.

(** What one iteration of the scheduling loop decides. *)
Inductive action : Type :=
| ASkipNoPath
| ASkipNoUrl (p : json)
| ASubmit (p url : json) (dest : path) (hashes size : json).

(** The downloads value after lines 220-222. *)
Definition downloads_of (downloads0 : json) : json :=
  let downloads1 := py_or downloads0 (JArr []) in
  match downloads1 with JStr _ => JArr [downloads1] | _ => downloads1 end.

Definition decide_entry (outdir : path) (verify_hashes : bool) (entry : json)
    : result action :=
  (path <- get entry "path" ;;
   if negb (truthy path) then Ok ASkipNoPath
   else
     downloads0 <- get entry "downloads" ;;
     if negb (truthy (downloads_of downloads0)) then Ok (ASkipNoUrl path)
     else
       url <- getitem0 (downloads_of downloads0) ;;
       dest <- joinpath_value outdir path ;;
       hashes <- (if verify_hashes then get entry "hashes" else Ok JNull) ;;
       size0 <- get entry "fileSize" ;;
       Ok (ASubmit path url dest hashes (py_or size0 JNull)))%res.

(** The decisions up to the first exception, and that exception. *)
Fixpoint decide_all (outdir : path) (verify_hashes : bool) (entries : list json)
    : list action * option exn :=
  match entries with
  | [] => ([], None)
  | entry :: rest =>
      match decide_entry outdir verify_hashes entry with
      | Ok a =>
          let '(acts, err) := decide_all outdir verify_hashes rest in
          (a :: acts, err)
      | Raise e => ([], Some e)
      end
  end.

(** The futures a list of decisions submits, from index [i] and progress
    position [pos]. *)
Fixpoint tasks_of (total i pos : nat) (acts : list action) : list task :=
  match acts with
  | [] => []
  | ASubmit p u d h sz :: rest =>
      {| idx := i; total := total; path_of := p; url := u; dest := d;
         expected_hashes := h; position := pos; size := sz |}
      :: tasks_of total (S i) (S pos) rest
  | _ :: rest => tasks_of total (S i) pos rest
  end.

(** The line each decision prints. *)
Definition line_of (total i : nat) (a : action) : event :=
  match a with
  | ASkipNoPath => SkipNoPath i total
  | ASkipNoUrl p => SkipNoUrl i total p
  | ASubmit _ u d _ _ => Scheduling i total u d
  end.

Fixpoint lines_of (total i : nat) (acts : list action) : list event :=
  match acts with
  | [] => []
  | a :: rest => line_of total i a :: lines_of total (S i) rest
  end.

Definition task_outcome (t : task) : result bool :=
  outcome (url t) (dest t) (expected_hashes t).

Definition task_disk (t : task) (d : disk) : disk :=
  disk_after (url t) (dest t) (expected_hashes t) d.

(** The disk after the tasks ran, in the given order. *)
Definition run_disks (ts : list task) (d : disk) : disk :=
  foldl (fun d t => task_disk t d) d ts.

(** The line the collecting loop prints for a task, if any. *)
Definition failure_line (t : task) : option event :=
  match task_outcome t with
  | Raise e => Some (Failed (idx t) (total t) (url t) e)
  | Ok _ => None
  end.

Definition succeeds (t : task) : bool := is_ok (task_outcome t).

(** The failing tasks of a list, in its order. *)
Definition failing (ts : list task) : list task :=
  List.filter (fun t => negb (succeeds t)) ts.

(** The counters after one collected future. *)
Definition bump (r : report) (t : task) : report :=
  {| r_scheduled := r_scheduled r;
     r_succeeded := r_succeeded r + (if succeeds t then 1 else 0);
     r_failed := r_failed r + (if succeeds t then 0 else 1) |}.

End Derived.

(** The indices of the failure lines, in the order printed. *)
Definition failed_indices (out : list event) : list nat :=
  omap (fun ev => match ev with Failed i _ _ _ => Some i | _ => None end) out.

Definition is_skip (ev : event) : bool :=
  match ev with SkipNoPath _ _ | SkipNoUrl _ _ _ => true | _ => false end.

(** The number of skip lines printed. *)
Definition count_skipped (out : list event) : nat :=
  length (List.filter is_skip out).

(** An entry without a path: [path] absent, null, empty (or otherwise
    false). *)
Definition missing_path (entry : json) : bool :=
  match get entry "path" with Ok p => negb (truthy p) | Raise _ => false end.

(** An entry without a download URL: [downloads] absent, null, an empty
    list or an empty string (or otherwise false). *)
Definition missing_url (entry : json) : bool :=
  match get entry "downloads" with Ok d => negb (truthy d) | Raise _ => false end.

(** The environment-applicability tag of an entry, in the words of the
    manifest format: the value of [env.server], absent ([JNull]) when the
    entry has no [env] or the [env] has no [server]. *)
Definition server_tag (entry : json) : json :=
  match entry with
  | JObj m =>
      match m !! "env" with
      | Some (JObj e) => default JNull (e !! "server")
      | _ => JNull
      end
  | _ => JNull
  end.

(** The filtering policy on a tag: required, optional, unknown, or absent. *)
Definition tag_kept (tag : json) : bool :=
  match tag with
  | JNull => true
  | JStr s =>
      String.eqb s "required" || String.eqb s "optional" || String.eqb s "unknown"
  | _ => false
  end.

(** An entry whose [env], if any, is an object. *)
Definition env_typed (entry : json) : bool :=
  match entry with
  | JObj m =>
      match m !! "env" with
      | None | Some JNull | Some (JObj _) => true
      | Some _ => false
      end
  | _ => false
  end.



(** ** Concrete worlds *)

Module Demo.

Definition bytes (s : string) : list byte := list_byte_of_string s.

Definition is_bytes (data : list byte) (s : string) : bool :=
  String.eqb (string_of_list_byte data) s.

(** The libraries on the few inputs of the demo world: the digests are the
    SHA-1 and SHA-512 of ["abc"] and of the empty input; the parser knows
    one document, the given manifest; the zip reader knows one container. *)
Definition demo_runtime (manifest : json) : Runtime := {|
  sha1_hexdigest data :=
    if is_bytes data "abc" then "a9993e364706816aba3e25717850c26c9cd0d89d"
    else "da39a3ee5e6b4b0d3255bfef95601890afd80709";
  sha512_hexdigest data :=
    if is_bytes data "abc"
    then "ddaf35a193617abacc417349ae20413112e6fa4e89a97ea20a9eeee64b55d39a2192992a274fc1a836ba3c23a3feebbd454d4423643ce80e2a9ac94fa54ca49f"
    else "cf83e1357eefb8bdf1542850d66d8007d620e4050b5715dc83f4a921d36ce9ce47d0d13c5d85f2b0ff8318d2877eec2f63b931bd47417a81a538327af927da3e";
  json_loads data :=
    if is_bytes data "{manifest}" then Ok manifest
    else Raise (ValueError "Expecting value");
  str_of _ := "pack";
  zip_members data :=
    if is_bytes data "PK-pack"
    then Some [("modrinth.index.json", bytes "{manifest}");
               ("overrides/config/a.cfg", bytes "x=1")]
    else None
|}.

(** A server that streams ["abc"] in three chunks (one of them empty) for
    [a.jar], breaks off after ["ab"] for [broken.jar], refuses connections
    on another host and answers 404 to everything else. *)
Definition demo_get (u : string) : response :=
  if String.eqb u "https://cdn.example/a.jar" then
    Streaming {| content_length := Some "3";
                 chunks := [bytes "ab"; []; bytes "c"];
                 stream_error := None |}
  else if String.eqb u "https://cdn.example/broken.jar" then
    Streaming {| content_length := Some "3";
                 chunks := [bytes "ab"];
                 stream_error := Some "Connection broken: IncompleteRead" |}
  else if String.eqb u "https://down.example/x.jar" then
    ConnectFail "Connection refused"
  else StatusFail "404 Client Error: Not Found".

Definition demo_env : env := {|
  requests_available := true;
  tqdm_available := true;
  requests_get := demo_get;
  mkdir_ok _ := true;
  open_ok _ := true;
  unlink_ok _ := true
|}.

(** The same machine without the [requests] package. *)
Definition no_requests_env : env := {|
  requests_available := false;
  tqdm_available := true;
  requests_get := demo_get;
  mkdir_ok _ := true;
  open_ok _ := true;
  unlink_ok _ := true
|}.

(** The same machine where files cannot be removed. *)
Definition no_unlink_env : env := {|
  requests_available := true;
  tqdm_available := true;
  requests_get := demo_get;
  mkdir_ok _ := true;
  open_ok _ := true;
  unlink_ok _ := false
|}.

(** Futures completing in submission order. *)
Definition fifo_pool : pool :=
  {| as_completed := fun ts => ts;
     as_completed_perm := fun ts => reflexivity ts |}.

(** Futures completing in the opposite order. *)
Definition lifo_pool : pool :=
  {| as_completed := reverse;
     as_completed_perm := fun ts => reverse_Permutation ts |}.

Definition obj (fields : list (string * json)) : json :=
  JObj (list_to_map fields).

Definition good_entry : json :=
  obj [("path", JStr "mods/a.jar");
       ("downloads", JArr [JStr "https://cdn.example/a.jar"]);
       ("hashes", obj [("sha1", JStr "A9993E364706816ABA3E25717850C26C9CD0D89D")]);
       ("env", obj [("server", JStr "required")])].

Definition bad_hash_entry : json :=
  obj [("path", JStr "mods/b.jar");
       ("downloads", JArr [JStr "https://cdn.example/a.jar"]);
       ("hashes", obj [("sha1", JStr "0000000000000000000000000000000000000000")])].

Definition broken_entry : json :=
  obj [("path", JStr "mods/c.jar");
       ("downloads", JArr [JStr "https://cdn.example/broken.jar"])].

Definition down_entry : json :=
  obj [("path", JStr "mods/d.jar");
       ("downloads", JArr [JStr "https://down.example/x.jar"])].

Definition no_path_entry : json :=
  obj [("downloads", JArr [JStr "https://cdn.example/a.jar"])].

Definition no_url_entry : json :=
  obj [("path", JStr "mods/e.jar"); ("downloads", JArr [])].

Definition string_url_entry : json :=
  obj [("path", JStr "mods/f.jar");
       ("downloads", JStr "https://cdn.example/a.jar")].

Definition client_only_entry : json :=
  obj [("path", JStr "mods/g.jar");
       ("downloads", JArr [JStr "https://cdn.example/a.jar"]);
       ("env", obj [("server", JStr "unsupported")])].

Definition escaping_entry : json :=
  obj [("path", JStr "../../etc/evil");
       ("downloads", JArr [JStr "https://cdn.example/a.jar"])].


Definition pack_path : path := ["home"; "u"; "pack.mrpack"].

Definition out_root : path := ["home"; "u"; "out"].

(** A disk holding only the archive, and nothing printed yet. *)
Definition start : state :=
  {| files := {[ pack_path := bytes "PK-pack" ]}; stdout := [] |}.

Definition empty_state : state := {| files := ∅; stdout := [] |}.

Definition b_jar : path := out_root ++ ["mods"; "b.jar"].

Definition c_jar : path := out_root ++ ["mods"; "c.jar"].

Definition abc_stream : stream :=
  {| content_length := Some "3";
     chunks := [bytes "ab"; []; bytes "c"];
     stream_error := None |}.

Definition broken_stream : stream :=
  {| content_length := Some "3";
     chunks := [bytes "ab"];
     stream_error := Some "Connection broken: IncompleteRead" |}.

Definition zero_sha1 : string := "0000000000000000000000000000000000000000".

Definition wrong_hashes : gmap string json :=
  {[ "sha1" := JStr zero_sha1 ]}.

(** The future of [good_entry] as the first of three, verification off. *)
Definition a_task : task :=
  {| idx := 1; total := 3; path_of := JStr "mods/a.jar";
     url := JStr "https://cdn.example/a.jar";
     dest := out_root ++ ["mods"; "a.jar"];
     expected_hashes := JNull; position := 0; size := JNull |}.

Definition demo_args : args :=
  {| mrpack := pack_path; outdir_arg := Some out_root;
     verify_hashes_arg := true; server_files_only_arg := false |}.

(** The manifest of the scenario: a right SHA-1, a wrong one, no hashes. *)
Definition three_files : list json :=
  [good_entry; bad_hash_entry; string_url_entry].

Definition skip_entries : list json :=
  [no_path_entry; no_url_entry; string_url_entry].

Definition failing_entries : list json := [broken_entry; down_entry].

Definition server_entries : list json :=
  [good_entry; client_only_entry; string_url_entry].

End Demo.

(** ** Definitions for the further properties *)

Abbreviation chars := list_ascii_of_string.

(** A character [sanitize_for_filename] lets through or puts in. *)
Definition safe_char (c : ascii) : bool := keep_char c || Ascii.eqb c "_".

(** The path of a member below the overrides folder (line 69). *)
Definition relpath_of (overrides_prefix member : string) : string :=
  drop_chars (String.length overrides_prefix) (replace_backslash member).

(** The members [extract_overrides] copies: below the prefix, with a
    non-empty relative path, and not named as a directory. *)
Definition is_file_member (overrides_prefix member : string) : bool :=
  String.prefix overrides_prefix (replace_backslash member)
  && negb (String.eqb (relpath_of overrides_prefix member) "")
  && negb (ends_with_slash member).

(** The location and the bytes of each copied member, in archive order. *)
Definition extraction_writes (z : zipfile) (overrides_prefix : string)
    (dest : path) : list (list string * list byte) :=
  (fun member =>
     (resolve (joinpath dest (relpath_of overrides_prefix member)),
      read z member))
  <$> List.filter (is_file_member overrides_prefix) (namelist z).

(** The disk after files were written one after the other. *)
Definition write_all (ws : list (list string * list byte)) (d : disk) : disk :=
  foldl (fun d w => <[w.1 := w.2]> d) d ws.




(** The last of the writes that went to a location. *)
Definition last_write (ws : list (list string * list byte)) (k : list string)
    : option (list byte) :=
  snd <$> List.find (fun w => bool_decide (w.1 = k)) (reverse ws).

(** Concrete inputs for the further properties. *)
Module Samples.
Import Demo.

(** The libraries with a given archive content and a given answer of the
    parser; the digests are those of the demo world. *)
Definition sample_runtime (z : zipfile) (parsed : result json) : Runtime := {|
  sha1_hexdigest := sha1_hexdigest (Runtime := demo_runtime JNull);
  sha512_hexdigest := sha512_hexdigest (Runtime := demo_runtime JNull);
  json_loads _ := parsed;
  str_of _ := "pack";
  zip_members _ := Some z
|}.

(** An archive with the folder entries, one file stored twice (once under a
    backslash name) and a file outside the overrides. *)
Definition overrides_zip : zipfile :=
  [("overrides/", []);
   ("overrides/config/", []);
   ("overrides/config/a.cfg", bytes "x=1");
   ("overrides\config\a.cfg", bytes "x=2");
   ("notes/readme.txt", bytes "hi")].

Definition manifest_zip : zipfile :=
  [("modrinth.index.json", bytes "{"); ("overrides/config/a.cfg", bytes "x=1")].

Definition a_cfg : path := out_root ++ ["config"; "a.cfg"].

Definition named_pack : gmap string json := {[ "name" := JStr "Demo Pack: v1" ]}.

Definition good_hashes : gmap string json :=
  {[ "sha1" := JStr "A9993E364706816ABA3E25717850C26C9CD0D89D" ]}.

Definition d_jar : path := out_root ++ ["mods"; "d.jar"].

(** A disk with an earlier copy of [d.jar]. *)
Definition old_disk : gmap (list string) (list byte) :=
  {[ resolve d_jar := bytes "old" ]}.

Definition parse_error : exn := ValueError "Expecting value: line 1 column 1".

End Samples.

(** * Properties *)

(** ** The primitives on small inputs *)

Example joinpath_relative :
  joinpath ["home"; "u"; "out"] "mods//a/./b.jar"
  = ["home"; "u"; "out"; "mods"; "a"; "b.jar"].
Proof. vm_compute. reflexivity. Qed.

Example joinpath_absolute :
  joinpath ["home"; "u"; "out"] "/etc/passwd" = ["etc"; "passwd"].
Proof. vm_compute. reflexivity. Qed.

Example resolve_parent_steps :
  resolve (joinpath ["home"; "u"; "out"] "../../etc/evil")
  = ["home"; "etc"; "evil"].
Proof. vm_compute. reflexivity. Qed.

Example path_str_joins : path_str ["home"; "u"] = "/home/u".
Proof. reflexivity. Qed.

Example lower_hex : lower "A9993E36" = "a9993e36".
Proof. reflexivity. Qed.

Example empty_dict_is_false : truthy (JObj ∅) = false.
Proof. reflexivity. Qed.

Example sanitize_pack_name :
  sanitize_for_filename "  My Pack: v1/2 " = "My Pack_ v1_2".
Proof. vm_compute. reflexivity. Qed.

(** An accented letter (233, e-acute) is alphanumeric and kept; the
    copyright sign (169) and the multiplication sign (215) are not. *)
Example sanitize_keeps_accented_letters :
  sanitize_for_filename ("caf" +:+ String "233" (String "169" (String "215" "x")))
  = "caf" +:+ String "233" "__x".
Proof. vm_compute. reflexivity. Qed.

Example lower_accented_capital :
  lower (String "201" "A") = String "233" "a"
  ∧ lower (String "215" (String "223" EmptyString))
    = String "215" (String "223" EmptyString).
Proof. split; vm_compute; reflexivity. Qed.

Example with_suffix_drops_last :
  with_suffix_empty ["home"; "u"; "pack.v1.mrpack"]
  = Ok ["home"; "u"; "pack.v1"].
Proof. vm_compute. reflexivity. Qed.

Example index_name_any_case : is_index_name "sub\Modrinth.Index.JSON" = true.
Proof. vm_compute. reflexivity. Qed.

Example read_last_member :
  read [("a", [x01]); ("b", [x02]); ("a", [x03])] "a" = [x03].
Proof. vm_compute. reflexivity. Qed.

(** ** [download_file] *)

Section DownloadFacts.
Context {RT : Runtime}.
Variable E : env.

Lemma update_app (h : hasher) (a b : list byte) :
  update (update h a) b = update h (a ++ b).
Proof. destruct h as [acc|]; simpl; [by rewrite <- List.app_assoc | done]. Qed.

Lemma update_nil (h : hasher) : update h [] = h.
Proof. destruct h as [acc|]; simpl; [by rewrite app_nil_r | done]. Qed.

Lemma alter_app_nil (k : list string) (d : disk) :
  alter (fun b : list byte => b ++ []) k d = d.
Proof.
  apply map_eq; intros j. destruct (decide (k = j)) as [->|Hne].
  - rewrite lookup_alter_eq. destruct (d !! j); simpl; [|done].
    by rewrite app_nil_r.
  - by rewrite lookup_alter_ne.
Qed.

Lemma alter_app_app (k : list string) (a b : list byte) (d : disk) :
  alter (fun x : list byte => x ++ b) k (alter (fun x => x ++ a) k d)
  = alter (fun x => x ++ (a ++ b)) k d.
Proof.
  apply map_eq; intros j. destruct (decide (k = j)) as [->|Hne].
  - rewrite !lookup_alter_eq. destruct (d !! j); simpl; [|done].
    by rewrite <- List.app_assoc.
  - by rewrite !lookup_alter_ne.
Qed.

(** The loop appends the whole body to the file and to both hashers, and
    raises the transport's error, if any, after the last chunk. *)
Lemma write_chunks_spec (dest : path) (cs : list (list byte))
    (err : option string) (h1 h512 : hasher) (d : gmap (list string) (list byte)) :
  write_chunks dest cs err h1 h512 d
  = (alter (fun b => b ++ concat cs) (resolve dest) d,
     match err with
     | Some cause => Raise (RequestException cause)
     | None => Ok (update h1 (concat cs), update h512 (concat cs))
     end).
Proof.
  revert h1 h512 d. induction cs as [|c cs IH]; intros h1 h512 d; simpl.
  - rewrite alter_app_nil, !update_nil. by destruct err.
  - case_bool_decide as Hc.
    + subst c. simpl. apply IH.
    + unfold bind, Fs.write. rewrite IH, alter_app_app, !update_app. done.
Qed.

Lemma cleanup_spec (dest : path) (d : gmap (list string) (list byte)) :
  cleanup E dest d = (cleaned E dest d, Ok tt).
Proof.
  unfold cleanup, cleaned, try_except, Fs.unlink, ret, raise.
  destruct (Fs.exists_ dest d); simpl; [|done].
  by destruct (unlink_ok E (resolve dest)).
Qed.

Lemma alter_insert_nil (k : list string) (b : list byte) (d : disk) :
  alter (fun x : list byte => x ++ b) k (<[k := []]> d) = <[k := b]> d.
Proof.
  apply map_eq; intros j. destruct (decide (k = j)) as [->|Hne].
  - by rewrite lookup_alter_eq, !lookup_insert_eq.
  - by rewrite lookup_alter_ne, !lookup_insert_ne.
Qed.

Lemma download_file_spec (url : json) (dest : path) (expected_hashes : json)
    (position : nat) (size : json) (d : gmap (list string) (list byte)) :
  download_file E url dest expected_hashes position size d
  = (disk_after E url dest expected_hashes d, outcome E url dest expected_hashes).
Proof.
  unfold download_file, outcome, disk_after.
  destruct (requests_available E); simpl; [|done].
  destruct (tqdm_available E); simpl; [|done].
  unfold Fs.mkdir, fetch, Fs.open_wb, bind, try_except, raise, ret, lift, rbind.
  destruct (mkdir_ok E (resolve (parent dest))); simpl; [|done].
  destruct (new_hasher "sha1" expected_hashes) as [h1|e1]; simpl; [|done].
  destruct (new_hasher "sha512" expected_hashes) as [h512|e2]; simpl; [|done].
  destruct url as [| | |u| |]; simpl; rewrite ?cleanup_spec; try done.
  destruct (requests_get E u) as [c|c|s]; simpl; rewrite ?cleanup_spec;
    try done.
  destruct (open_ok E (resolve dest)); simpl; rewrite ?cleanup_spec; [|done].
  rewrite write_chunks_spec, alter_insert_nil. fold (body s).
  destruct (stream_error s) as [c|]; simpl; rewrite ?cleanup_spec; [done|].
  by destruct (verify dest expected_hashes _ _).
Qed.

End DownloadFacts.

(** ** The scheduling loop *)

Section ScheduleFacts.
Context {RT : Runtime}.

Lemma schedule_entry_spec (outdir : path) (vh : bool) (total i : nat)
    (entry : json) (st : sched) :
  schedule_entry outdir vh total i entry st
  = match decide_entry outdir vh entry with
    | Raise e => Raise e
    | Ok a =>
        Ok {| futures := futures st ++ tasks_of total i (position_counter st) [a];
              scheduled := scheduled st + length (tasks_of total i 0 [a]);
              position_counter :=
                position_counter st + length (tasks_of total i 0 [a]);
              printed := printed st ++ [line_of total i a] |}
    end.
Proof.
  unfold schedule_entry, decide_entry, downloads_of, rbind.
  destruct st as [f sc pc pr]; simpl.
  destruct (get entry "path") as [p|e]; [|done].
  destruct (truthy p); simpl.
  - destruct (get entry "downloads") as [d0|e]; [|done].
    match goal with |- context [truthy ?d] => destruct (truthy d) end; simpl.
    + match goal with |- context [getitem0 ?d] => destruct (getitem0 d) end;
        [|done].
      destruct (joinpath_value outdir p); [|done].
      destruct (if vh then get entry "hashes" else Ok JNull); [|done].
      destruct (get entry "fileSize"); [|done]. done.
    + by rewrite app_nil_r, !Nat.add_0_r.
  - by rewrite app_nil_r, !Nat.add_0_r.
Qed.

Lemma tasks_of_length (total i pos pos' : nat) (acts : list action) :
  length (tasks_of total i pos acts) = length (tasks_of total i pos' acts).
Proof.
  revert i pos pos'. induction acts as [|a acts IH]; intros i pos pos'; [done|].
  destruct a; simpl; eauto.
Qed.

Lemma tasks_of_cons (total i pos : nat) (a : action) (acts : list action) :
  tasks_of total i pos (a :: acts)
  = tasks_of total i pos [a]
    ++ tasks_of total (S i) (pos + length (tasks_of total i 0 [a])) acts.
Proof.
  destruct a; simpl; rewrite ?Nat.add_0_r, ?Nat.add_1_r; done.
Qed.

(** The loop submits and prints what the decisions say, in order, up to the
    first exception. *)
Lemma schedule_spec (outdir : path) (vh : bool) (total : nat)
    (entries : list json) (i : nat) (st : sched) :
  schedule outdir vh total i entries st
  = (let acts := (decide_all outdir vh entries).1 in
     {| futures := futures st ++ tasks_of total i (position_counter st) acts;
        scheduled := scheduled st + length (tasks_of total i 0 acts);
        position_counter :=
          position_counter st + length (tasks_of total i 0 acts);
        printed := printed st ++ lines_of total i acts |},
     match (decide_all outdir vh entries).2 with
     | Some e => Raise e
     | None => Ok tt
     end).
Proof.
  revert i st. induction entries as [|entry rest IH]; intros i st.
  - destruct st; simpl. by rewrite !app_nil_r, !Nat.add_0_r.
  - cbn [schedule decide_all]. rewrite schedule_entry_spec.
    destruct (decide_entry outdir vh entry) as [a|e].
    + rewrite IH. destruct (decide_all outdir vh rest) as [acts err].
      cbn [fst snd futures scheduled position_counter printed lines_of].
      f_equal. rewrite (tasks_of_cons total i (position_counter st) a acts).
      rewrite (tasks_of_cons total i 0 a acts). rewrite !length_app.
      rewrite (tasks_of_length total (S i) (0 + _) 0).
      rewrite <- !(assoc_L (++)), !Nat.add_assoc. done.
    + destruct st; simpl. by rewrite !app_nil_r, !Nat.add_0_r.
Qed.

End ScheduleFacts.

(** ** The collecting loop and the download phase *)

Section PhaseFacts.
Context {RT : Runtime}.
Variable E : env.
Variable P : pool.

Lemma print_all_spec (evs : list event) (s : state) :
  for_each (fun _ ev => print ev) tt evs s
  = ({| files := files s; stdout := stdout s ++ evs |}, Ok tt).
Proof.
  revert s. induction evs as [|ev evs IH]; intros s; simpl.
  - unfold ret. destruct s; simpl. by rewrite app_nil_r.
  - unfold bind, print. rewrite IH. simpl. by rewrite <- (assoc_L (++)).
Qed.

Lemma run_task_spec (t : task) (d : gmap (list string) (list byte)) :
  run_task E t d = (task_disk E t d, task_outcome E t).
Proof. apply download_file_spec. Qed.

(** One collected future: its own outcome decides the counter and the line;
    the exception never leaves the iteration. *)
Lemma collect_one_spec (r : report) (t : task) (s : state) :
  collect_one E r t s
  = ({| files := task_disk E t (files s);
        stdout := stdout s ++ option_list (failure_line E t) |},
     Ok (bump E r t)).
Proof.
  unfold collect_one, try_except, bind, on_disk, print, ret, bump, succeeds,
    failure_line.
  rewrite run_task_spec.
  destruct (task_outcome E t) as [b|e]; simpl.
  - by rewrite app_nil_r, !Nat.add_0_r.
  - by rewrite !Nat.add_0_r.
Qed.

Lemma collect_spec (ts : list task) (r : report) (s : state) :
  for_each (collect_one E) r ts s
  = ({| files := run_disks E ts (files s);
        stdout := stdout s ++ omap (failure_line E) ts |},
     Ok (foldl (bump E) r ts)).
Proof.
  revert r s. induction ts as [|t ts IH]; intros r s; simpl.
  - unfold ret. destruct s; simpl. by rewrite app_nil_r.
  - unfold bind. rewrite collect_one_spec, IH. simpl.
    rewrite <- (assoc_L (++)).
    by destruct (failure_line E t).
Qed.

Lemma drain_spec (ts : list task) (s : state) :
  drain E P ts s
  = ({| files := run_disks E (as_completed P ts) (files s);
        stdout := stdout s |}, Ok tt).
Proof.
  unfold drain. generalize (as_completed P ts) as l. clear ts.
  intros l. revert s. induction l as [|t l IH]; intros s; simpl.
  - unfold ret. by destruct s.
  - unfold bind at 1, try_except, bind, on_disk, ret.
    rewrite run_task_spec. destruct (task_outcome E t); simpl; by rewrite IH.
Qed.

Lemma foldl_bump (ts : list task) (r : report) :
  foldl (bump E) r ts
  = {| r_scheduled := r_scheduled r;
       r_succeeded := r_succeeded r + length (List.filter (succeeds E) ts);
       r_failed :=
         r_failed r + length (List.filter (fun t => negb (succeeds E t)) ts) |}.
Proof.
  revert r. induction ts as [|t ts IH]; intros r; simpl.
  - destruct r; simpl. by rewrite !Nat.add_0_r.
  - rewrite IH. unfold bump. simpl.
    destruct (succeeds E t); simpl; f_equal; lia.
Qed.

(** The download phase in closed form. *)
Lemma download_phase_spec (outdir : path) (vh : bool) (entries : list json)
    (s : state) :
  download_phase E P outdir vh entries s
  = (let acts := (decide_all outdir vh entries).1 in
     let futs := tasks_of (length entries) 1 0 acts in
     let lines := lines_of (length entries) 1 acts in
     let order := as_completed P futs in
     match (decide_all outdir vh entries).2 with
     | Some e =>
         ({| files := run_disks E order (files s);
             stdout := stdout s ++ lines |}, Raise e)
     | None =>
         let rep :=
           {| r_scheduled := length futs;
              r_succeeded := length (List.filter (succeeds E) order);
              r_failed :=
                length (List.filter (fun t => negb (succeeds E t)) order) |} in
         ({| files := run_disks E order (files s);
             stdout := stdout s ++ lines ++ omap (failure_line E) order
                       ++ [Summary (r_succeeded rep) (r_scheduled rep)] |},
          Ok rep)
     end).
Proof.
  unfold download_phase. rewrite schedule_spec. simpl.
  destruct (decide_all outdir vh entries) as [acts err]; simpl.
  unfold bind at 1. rewrite print_all_spec.
  destruct err as [e|]; simpl.
  - unfold bind, raise. by rewrite drain_spec.
  - unfold bind, print, ret. rewrite collect_spec, foldl_bump. simpl.
    by rewrite <- !(assoc_L (++)).
Qed.

End PhaseFacts.

(** ** Claims about [download_file] *)

Section DownloadClaims.
Context {RT : Runtime}.
Variable E : env.

Lemma new_hasher_present (algo : string) (m : gmap string json) (v : json) :
  m !! algo = Some v → new_hasher algo (JObj m) = Ok (Some []).
Proof.
  intros Hm. unfold new_hasher, truthy, contains, rbind.
  rewrite bool_decide_eq_false_2 by (intros ->; by rewrite lookup_empty in Hm).
  simpl. by rewrite bool_decide_eq_true_2 by (by rewrite Hm).
Qed.

Lemma new_hasher_obj (algo : string) (m : gmap string json) :
  ∃ h, new_hasher algo (JObj m) = Ok h.
Proof.
  unfold new_hasher, contains, rbind. destruct (truthy (JObj m)); eauto.
Qed.

Lemma truthy_obj_lookup (m : gmap string json) (k : string) (v : json) :
  m !! k = Some v → truthy (JObj m) = true.
Proof.
  intros Hm. simpl.
  by rewrite bool_decide_eq_false_2 by (intros ->; by rewrite lookup_empty in Hm).
Qed.

(** C1.  A body whose SHA-1 differs from the expected one makes the call
    raise the mismatch, naming the algorithm and both digests, and leaves
    the complete file on the disk: the handler that removes the file covers
    the transfer only, not the verification. *)
Theorem digest_mismatch_leaves_file (u : string) (dest : path)
    (m : gmap string json) (x : string) (s : stream) (position : nat)
    (size : json) (d : gmap (list string) (list byte)) :
  requests_available E = true →
  tqdm_available E = true →
  mkdir_ok E (resolve (parent dest)) = true →
  open_ok E (resolve dest) = true →
  requests_get E u = Streaming s →
  stream_error s = None →
  m !! "sha1" = Some (JStr x) →
  lower (sha1_hexdigest (body s)) ≠ lower x →
  ∃ d',
    download_file E (JStr u) dest (JObj m) position size d
    = (d', Raise (ValueError
                    (mismatch_message "SHA1" dest x (sha1_hexdigest (body s)))))
    ∧ d' !! resolve dest = Some (body s).
Proof.
  intros Hreq Htq Hmk Hop Hget Herr Hm Hne.
  exists (<[resolve dest := body s]> d). split; [|apply lookup_insert_eq].
  rewrite download_file_spec. unfold disk_after, outcome.
  rewrite Hreq, Htq, Hmk, Hget, Hop, Herr. simpl.
  rewrite (new_hasher_present "sha1" m (JStr x) Hm).
  destruct (new_hasher_obj "sha512" m) as [h512 ->]. simpl.
  f_equal. unfold verify. rewrite (truthy_obj_lookup m "sha1" (JStr x) Hm).
  unfold verify_one at 1. simpl.
  rewrite bool_decide_eq_true_2 by (by rewrite Hm).
  rewrite Hm. simpl. by rewrite bool_decide_eq_true_2.
Qed.

(** C4.  When the transport fails while the body is read (the libraries
    are installed, the parent directory and the file could be created, and
    the membership tests of lines 93-94 did not raise), the call raises
    that transport error; the partial file is removed when the removal
    succeeds and stays, with what was written, when it does not, the
    removal's own failure being swallowed.  The collecting loop counts the
    task as failed and prints the error as the cause. *)
Theorem transport_error_cleanup (u : string) (dest : path)
    (expected_hashes : json) (s : stream) (cause : string) (position : nat)
    (size : json) (d : gmap (list string) (list byte)) :
  requests_available E = true →
  tqdm_available E = true →
  mkdir_ok E (resolve (parent dest)) = true →
  is_ok (new_hasher "sha1" expected_hashes) = true →
  is_ok (new_hasher "sha512" expected_hashes) = true →
  open_ok E (resolve dest) = true →
  requests_get E u = Streaming s →
  stream_error s = Some cause →
  download_file E (JStr u) dest expected_hashes position size d
  = (if unlink_ok E (resolve dest) then delete (resolve dest) d
     else <[resolve dest := body s]> d,
     Raise (RequestException cause))
  ∧ ∀ (r : report) (t : task) (st : state),
      url t = JStr u → Run.dest t = dest →
      Run.expected_hashes t = expected_hashes →
      (collect_one E r t st).2
      = Ok {| r_scheduled := r_scheduled r; r_succeeded := r_succeeded r;
              r_failed := r_failed r + 1 |}
      ∧ stdout (collect_one E r t st).1
        = stdout st ++ [Failed (idx t) (total t) (JStr u) (RequestException cause)].
Proof.
  intros Hreq Htq Hmk Hh1 Hh512 Hop Hget Herr.
  assert (Hout : outcome E (JStr u) dest expected_hashes
                 = Raise (RequestException cause)).
  { unfold outcome. rewrite Hreq, Htq, Hmk, Hget, Hop, Herr. simpl.
    destruct (new_hasher "sha1" expected_hashes); [|done].
    destruct (new_hasher "sha512" expected_hashes); done. }
  split.
  - rewrite download_file_spec, Hout. f_equal.
    unfold disk_after, cleaned, Fs.exists_.
    rewrite Hreq, Htq, Hmk, Hh1, Hh512, Hget, Hop, Herr. simpl.
    rewrite bool_decide_eq_true_2 by (rewrite lookup_insert_eq; eauto).
    simpl. destruct (unlink_ok E (resolve dest)); [|done].
    apply delete_insert_eq.
  - intros r t st Hu Hd Hh. rewrite collect_one_spec. simpl.
    unfold bump, succeeds, failure_line, task_outcome.
    rewrite Hu, Hd, Hh, Hout. simpl. by rewrite Nat.add_0_r.
Qed.

End DownloadClaims.

(** ** Decisions and the futures they submit *)

Section DecisionFacts.

Lemma decide_all_lookup (outdir : path) (vh : bool) (entries : list json)
    (k : nat) (a : action) :
  (decide_all outdir vh entries).1 !! k = Some a →
  ∃ entry, entries !! k = Some entry ∧ decide_entry outdir vh entry = Ok a.
Proof.
  revert k. induction entries as [|entry rest IH]; intros k; simpl; [done|].
  destruct (decide_entry outdir vh entry) as [a'|e] eqn:Hd; simpl; [|done].
  destruct (decide_all outdir vh rest) as [acts err]; simpl in *.
  destruct k as [|k]; simpl.
  - intros [= <-]. eauto.
  - intros Hk. destruct (IH k Hk) as (entry' & ? & ?). eauto.
Qed.

Lemma decide_all_complete (outdir : path) (vh : bool) (entries : list json) :
  (decide_all outdir vh entries).2 = None →
  length (decide_all outdir vh entries).1 = length entries.
Proof.
  induction entries as [|entry rest IH]; simpl; [done|].
  destruct (decide_entry outdir vh entry) as [a'|e]; simpl; [|done].
  destruct (decide_all outdir vh rest) as [acts err]; simpl in *.
  intros ->. by rewrite IH.
Qed.

Lemma decide_all_reached (outdir : path) (vh : bool) (entries : list json)
    (k : nat) (entry : json) :
  entries !! k = Some entry →
  k < length (decide_all outdir vh entries).1 →
  ∃ a, (decide_all outdir vh entries).1 !! k = Some a
       ∧ decide_entry outdir vh entry = Ok a.
Proof.
  intros Hk Hlt. destruct (lookup_lt_is_Some_2 _ _ Hlt) as [a Ha].
  exists a. split; [done|].
  destruct (decide_all_lookup _ _ _ _ _ Ha) as (entry' & He & Hd). congruence.
Qed.

Lemma elem_of_tasks_of (total i pos : nat) (acts : list action) (t : task) :
  t ∈ tasks_of total i pos acts →
  ∃ k, acts !! k = Some (ASubmit (path_of t) (url t) (dest t)
                                 (expected_hashes t) (size t))
       ∧ idx t = i + k ∧ Run.total t = total.
Proof.
  revert i pos. induction acts as [|a acts IH]; intros i pos; simpl.
  - by intros ?%elem_of_nil.
  - destruct a as [|p|p u d h sz].
    + intros (k & ? & ? & ?)%IH. exists (S k). split_and!; [done|lia|done].
    + intros (k & ? & ? & ?)%IH. exists (S k). split_and!; [done|lia|done].
    + intros [->|(k & ? & ? & ?)%IH]%elem_of_cons.
      * exists 0. simpl. split_and!; [done|lia|done].
      * exists (S k). split_and!; [done|lia|done].
Qed.

Lemma tasks_of_submitted (total i pos : nat) (acts : list action) (k : nat)
    (p u : json) (d : path) (h sz : json) :
  acts !! k = Some (ASubmit p u d h sz) →
  ∃ t, t ∈ tasks_of total i pos acts ∧ idx t = i + k ∧ path_of t = p
       ∧ url t = u ∧ dest t = d ∧ expected_hashes t = h ∧ size t = sz.
Proof.
  revert i pos k. induction acts as [|a acts IH]; intros i pos k; [done|].
  destruct k as [|k]; simpl.
  - intros [= ->]. eexists. split; [apply elem_of_cons; by left|].
    simpl. split_and!; done || lia.
  - intros Hk.
    destruct a as [|p'|p' u' d' h' sz'];
      [destruct (IH (S i) pos k Hk) as (t & Ht & Hi & Hrest)
      |destruct (IH (S i) pos k Hk) as (t & Ht & Hi & Hrest)
      |destruct (IH (S i) (S pos) k Hk) as (t & Ht & Hi & Hrest)];
      exists t; (split; [done || (apply elem_of_cons; by right)|]);
      (split; [lia|done]).
Qed.


Lemma lines_of_lookup (total i : nat) (acts : list action) (k : nat) :
  lines_of total i acts !! k = line_of total (i + k) <$> acts !! k.
Proof.
  revert i k. induction acts as [|a acts IH]; intros i k; [done|].
  destruct k as [|k]; simpl.
  - by rewrite Nat.add_0_r.
  - rewrite IH. by rewrite Nat.add_succ_r.
Qed.

Lemma count_lines (total i pos : nat) (acts : list action) :
  length (tasks_of total i pos acts) + count_skipped (lines_of total i acts)
  = length acts.
Proof.
  unfold count_skipped. revert i pos.
  induction acts as [|a acts IH]; intros i pos; [done|].
  destruct a as [|p|p u d h sz]; simpl.
  - specialize (IH (S i) pos). lia.
  - specialize (IH (S i) pos). lia.
  - specialize (IH (S i) (S pos)). lia.
Qed.

Lemma truthy_downloads_of (d0 : json) :
  truthy (downloads_of d0) = truthy d0.
Proof.
  unfold downloads_of, py_or. destruct (truthy d0) eqn:Ht; [|done].
  destruct d0; try done.
Qed.

End DecisionFacts.

(** ** Digest verification *)

Section VerifyClaims.
Context {RT : Runtime}.
Variable E : env.

Lemma new_hasher_acc (algo : string) (eh : json) (acc : list byte) :
  new_hasher algo eh = Ok (Some acc) → acc = [].
Proof.
  unfold new_hasher, rbind. destruct (truthy eh); [|done].
  destruct (contains algo eh) as [[]|]; naive_solver.
Qed.

Lemma verify_one_value_error (label algo : string)
    (hexdigest : list byte → string) (dest : path) (eh : json) (h : hasher)
    (msg : string) :
  verify_one label algo hexdigest dest eh h = Raise (ValueError msg) →
  ∃ m x data,
    eh = JObj m ∧ m !! algo = Some (JStr x) ∧ h = Some data
    ∧ lower (hexdigest data) ≠ lower x
    ∧ msg = mismatch_message label dest x (hexdigest data).
Proof.
  unfold verify_one, rbind.
  destruct eh as [| | |s|l|m]; simpl; try done.
  - by destruct (substring_of algo s), h.
  - by destruct (existsb _ l), h.
  - case_bool_decide as Hc; [|done].
    destruct h as [data|]; [|done].
    destruct (m !! algo) as [[| | |x| |]|] eqn:Hm; try done.
    case_bool_decide as Hne; [|done].
    intros [= <-]. by exists m, x, data.
Qed.

(** The only [ValueError] of [download_file] is a digest mismatch. *)
Lemma outcome_value_error (url : json) (dest : path) (eh : json) (msg : string) :
  outcome E url dest eh = Raise (ValueError msg) →
  ∃ u s m x,
    url = JStr u ∧ requests_get E u = Streaming s ∧ eh = JObj m
    ∧ ((m !! "sha1" = Some (JStr x)
        ∧ lower (sha1_hexdigest (body s)) ≠ lower x
        ∧ msg = mismatch_message "SHA1" dest x (sha1_hexdigest (body s)))
       ∨ (m !! "sha512" = Some (JStr x)
          ∧ lower (sha512_hexdigest (body s)) ≠ lower x
          ∧ msg = mismatch_message "SHA512" dest x (sha512_hexdigest (body s)))).
Proof.
  unfold outcome, rbind.
  destruct (requests_available E); simpl; [|done].
  destruct (tqdm_available E); simpl; [|done].
  destruct (mkdir_ok E (resolve (parent dest))); simpl; [|done].
  destruct (new_hasher "sha1" eh) as [h1|e1] eqn:Hh1.
  2:{ intros [= ->]. unfold new_hasher, rbind in Hh1.
      destruct (truthy eh); [|done]. by destruct eh. }
  destruct (new_hasher "sha512" eh) as [h512|e2] eqn:Hh512.
  2:{ intros [= ->]. unfold new_hasher, rbind in Hh512.
      destruct (truthy eh); [|done]. by destruct eh. }
  destruct url as [| | |u| |]; try done.
  destruct (requests_get E u) as [c|c|s] eqn:Hget; try done.
  destruct (open_ok E (resolve dest)); [|done].
  destruct (stream_error s); [done|].
  unfold verify. destruct (truthy eh); [|done]. unfold rbind.
  destruct (verify_one "SHA1" "sha1" _ dest eh _) as [[]|e] eqn:Hv1.
  - destruct (verify_one "SHA512" "sha512" _ dest eh _) as [[]|e] eqn:Hv2;
      [done|].
    intros [= ->].
    destruct (verify_one_value_error _ _ _ _ _ _ _ Hv2)
      as (m & x & data & -> & Hm & Hd & Hne & ->).
    exists u, s, m, x. split_and!; try done. right.
    destruct h512 as [acc|]; [|done]. simpl in Hd. injection Hd as <-.
    apply new_hasher_acc in Hh512 as ->. done.
  - intros [= ->].
    destruct (verify_one_value_error _ _ _ _ _ _ _ Hv1)
      as (m & x & data & -> & Hm & Hd & Hne & ->).
    exists u, s, m, x. split_and!; try done. left.
    destruct h1 as [acc|]; [|done]. simpl in Hd. injection Hd as <-.
    apply new_hasher_acc in Hh1 as ->. done.
Qed.

Lemma lower_differs (a b : string) : lower a ≠ lower b → a ≠ b.
Proof. intros Hne ->. done. Qed.

Lemma new_hasher_insert_other (algo k : string) (v : json)
    (m : gmap string json) :
  k ≠ algo →
  new_hasher algo (JObj (<[k:=v]> m)) = new_hasher algo (JObj m).
Proof.
  intros Hk. unfold new_hasher, contains, rbind. simpl.
  rewrite lookup_insert_ne by done.
  rewrite bool_decide_eq_false_2 by apply insert_non_empty. simpl.
  case_bool_decide as Hm; simpl.
  - rewrite bool_decide_eq_false_2; [done|].
    intros ->. rewrite lookup_empty in Hm. by destruct Hm.
  - by destruct (negb _).
Qed.

Lemma verify_one_insert_other (label algo k : string) (v : json)
    (hexdigest : list byte → string) (dest : path) (m : gmap string json)
    (h : hasher) :
  k ≠ algo →
  verify_one label algo hexdigest dest (JObj (<[k:=v]> m)) h
  = verify_one label algo hexdigest dest (JObj m) h.
Proof.
  intros Hk. unfold verify_one, contains, getitem.
  by rewrite lookup_insert_ne by done.
Qed.

Lemma verify_insert_other (dest : path) (k : string) (v : json)
    (m : gmap string json) (h1 h512 : hasher) :
  k ≠ "sha1" → k ≠ "sha512" →
  verify dest (JObj (<[k:=v]> m)) h1 h512 = verify dest (JObj m) h1 h512.
Proof.
  intros H1 H512. unfold verify.
  rewrite !verify_one_insert_other by done. simpl.
  rewrite bool_decide_eq_false_2 by apply insert_non_empty. simpl.
  case_bool_decide as Hm; simpl; [|done].
  subst m. unfold verify_one, contains, rbind. rewrite !lookup_empty.
  by rewrite !bool_decide_eq_false_2 by (by intros [? ?]).
Qed.

Lemma outcome_insert_other (url : json) (dest : path) (k : string) (v : json)
    (m : gmap string json) :
  k ≠ "sha1" → k ≠ "sha512" →
  outcome E url dest (JObj (<[k:=v]> m)) = outcome E url dest (JObj m).
Proof.
  intros H1 H512. unfold outcome.
  rewrite !new_hasher_insert_other by done.
  destruct (requests_available E), (tqdm_available E),
    (mkdir_ok E (resolve (parent dest))); simpl; try done.
  destruct (new_hasher "sha1" (JObj m)), (new_hasher "sha512" (JObj m));
    simpl; try done.
  destruct url as [| | |u| |]; try done.
  destruct (requests_get E u) as [c|c|s]; try done.
  destruct (open_ok E (resolve dest)); try done.
  destruct (stream_error s); try done.
  by rewrite verify_insert_other.
Qed.

Lemma disk_after_insert_other (url : json) (dest : path) (k : string)
    (v : json) (m : gmap string json) (d : gmap (list string) (list byte)) :
  k ≠ "sha1" → k ≠ "sha512" →
  disk_after E url dest (JObj (<[k:=v]> m)) d = disk_after E url dest (JObj m) d.
Proof.
  intros H1 H512. unfold disk_after.
  by rewrite !new_hasher_insert_other by done.
Qed.

(** C10.  With verification off every future is submitted with no expected
    digests.  A call can raise a digest mismatch only for a dictionary of
    expected digests holding, under [sha1] or [sha512], a string that
    differs from the digest of the body; with no expected digests it never
    does; and an entry under any other key changes neither the result nor
    the disk. *)
Theorem digest_mismatch_only_when_verifying :
  (∀ (outdir : path) (total i : nat) (entries : list json) (st : sched)
     (r : result unit),
     schedule outdir false total i entries idle = (st, r) →
     Forall (fun t => expected_hashes t = JNull) (futures st))
  ∧ (∀ (url : json) (dest : path) (eh : json) (position : nat) (size : json)
       (d d' : gmap (list string) (list byte)) (msg : string),
       download_file E url dest eh position size d = (d', Raise (ValueError msg)) →
       ∃ u s m algo x got,
         url = JStr u ∧ requests_get E u = Streaming s ∧ eh = JObj m
         ∧ m !! algo = Some (JStr x) ∧ got ≠ x
         ∧ ((algo = "sha1" ∧ got = sha1_hexdigest (body s)
             ∧ msg = mismatch_message "SHA1" dest x got)
            ∨ (algo = "sha512" ∧ got = sha512_hexdigest (body s)
               ∧ msg = mismatch_message "SHA512" dest x got)))
  ∧ (∀ (url : json) (dest : path) (position : nat) (size : json)
       (d d' : gmap (list string) (list byte)) (msg : string),
       download_file E url dest JNull position size d
       ≠ (d', Raise (ValueError msg)))
  ∧ (∀ (url : json) (dest : path) (m : gmap string json) (k : string)
       (v : json) (position : nat) (size : json)
       (d : gmap (list string) (list byte)),
       k ≠ "sha1" → k ≠ "sha512" →
       download_file E url dest (JObj (<[k:=v]> m)) position size d
       = download_file E url dest (JObj m) position size d).
Proof.
  split_and!.
  - intros outdir total i entries st r. rewrite schedule_spec.
    intros [= <- _]. simpl. apply Forall_forall. intros t Ht.
    apply elem_of_tasks_of in Ht as (k & Hk & _ & _).
    apply decide_all_lookup in Hk as (entry & _ & Hd).
    unfold decide_entry, rbind in Hd.
    repeat (match type of Hd with
            | context [match ?x with _ => _ end] => destruct x; try done
            end; simpl in Hd).
    by injection Hd.
  - intros url dest eh position size d d' msg. rewrite download_file_spec.
    intros [= _ Hout].
    destruct (outcome_value_error _ _ _ _ Hout)
      as (u & s & m & x & -> & Hget & -> & [(Hm & Hne & ->)|(Hm & Hne & ->)]).
    + exists u, s, m, "sha1", x, (sha1_hexdigest (body s)).
      split_and!; try done; [by apply lower_differs | by left].
    + exists u, s, m, "sha512", x, (sha512_hexdigest (body s)).
      split_and!; try done; [by apply lower_differs | by right].
  - intros url dest position size d d' msg. rewrite download_file_spec.
    intros [= _ Hout].
    by destruct (outcome_value_error _ _ _ _ Hout)
      as (u & s & m & x & _ & _ & ? & _).
  - intros url dest m k v position size d H1 H512.
    rewrite !download_file_spec.
    by rewrite outcome_insert_other, disk_after_insert_other.
Qed.

End VerifyClaims.

(** ** Claims about the download phase *)

Section PhaseClaims.
Context {RT : Runtime}.
Variable E : env.
Variable P : pool.

Lemma schedule_idle (outdir : path) (vh : bool) (total : nat)
    (entries : list json) :
  schedule outdir vh total 1 entries idle
  = ({| futures := tasks_of total 1 0 (decide_all outdir vh entries).1;
        scheduled := length (tasks_of total 1 0 (decide_all outdir vh entries).1);
        position_counter :=
          length (tasks_of total 1 0 (decide_all outdir vh entries).1);
        printed := lines_of total 1 (decide_all outdir vh entries).1 |},
     match (decide_all outdir vh entries).2 with
     | Some e => Raise e
     | None => Ok tt
     end).
Proof. by rewrite schedule_spec. Qed.

Lemma count_skipped_app (a b : list event) :
  count_skipped (a ++ b) = count_skipped a + count_skipped b.
Proof. unfold count_skipped. by rewrite List.filter_app, length_app. Qed.

Lemma count_skipped_failures (ts : list task) :
  count_skipped (omap (failure_line E) ts) = 0.
Proof.
  induction ts as [|t ts IH]; [done|]. simpl. unfold failure_line at 1.
  by destruct (task_outcome E t).
Qed.

Lemma filter_length_perm {A} (f : A → bool) (l l' : list A) :
  l ≡ₚ l' → length (List.filter f l) = length (List.filter f l').
Proof.
  induction 1 as [|x l l' _ IH|x y l|l l' l'' _ IH1 _ IH2]; simpl.
  - done.
  - destruct (f x); simpl; by rewrite IH.
  - by destruct (f x), (f y).
  - by rewrite IH1.
Qed.

Lemma failed_indices_app (a b : list event) :
  failed_indices (a ++ b) = failed_indices a ++ failed_indices b.
Proof. apply omap_app. Qed.

Lemma failed_indices_lines (total i : nat) (acts : list action) :
  failed_indices (lines_of total i acts) = [].
Proof.
  revert i. induction acts as [|a acts IH]; intros i; [done|].
  simpl. unfold failed_indices in *. simpl. rewrite IH. by destruct a.
Qed.



(** C5, as the code has it.  When the summary is printed, succeeded plus
    failed equals scheduled, and scheduled plus the number of skip lines
    printed by the phase equals the number of filtered entries; the summary
    is the last line and shows the succeeded and scheduled counters. *)
Theorem summary_counts (outdir : path) (vh : bool) (entries : list json)
    (s s' : state) (rep : report) :
  download_phase E P outdir vh entries s = (s', Ok rep) →
  r_succeeded rep + r_failed rep = r_scheduled rep
  ∧ r_scheduled rep + count_skipped (stdout s')
    = length entries + count_skipped (stdout s)
  ∧ last (stdout s') = Some (Summary (r_succeeded rep) (r_scheduled rep)).
Proof.
  rewrite download_phase_spec. simpl.
  destruct (decide_all outdir vh entries) as [acts err] eqn:Hd; simpl.
  destruct err as [e|]; [done|]. intros [= <- <-]. simpl.
  split_and!.
  - rewrite List.filter_length.
    apply Permutation_length, as_completed_perm.
  - rewrite !count_skipped_app, count_skipped_failures.
    pose proof (count_lines (length entries) 1 0 acts) as Hc.
    pose proof (decide_all_complete outdir vh entries) as Hl.
    rewrite Hd in Hl. specialize (Hl eq_refl). simpl in Hl.
    unfold count_skipped at 3. simpl. lia.
  - by rewrite !(assoc_L (++)), last_snoc.
Qed.

(** C6.  Once the scheduling loop has finished, the phase returns, with
    every submitted future collected: the succeeded and failed counters are
    the numbers of submitted tasks whose own call returns, respectively
    raises, whatever the completion order; a task's result is that of its
    own call on any disk, so no sibling's failure changes it; and every
    failing task gets its own failure line. *)
Theorem failures_are_isolated (outdir : path) (vh : bool)
    (entries : list json) (s : state) (st : sched) :
  schedule outdir vh (length entries) 1 entries idle = (st, Ok tt) →
  ∃ s' rep,
    download_phase E P outdir vh entries s = (s', Ok rep)
    ∧ r_scheduled rep = length (futures st)
    ∧ r_succeeded rep = length (List.filter (succeeds E) (futures st))
    ∧ r_failed rep = length (failing E (futures st))
    ∧ r_succeeded rep + r_failed rep = length (futures st)
    ∧ (∀ t d, (run_task E t d).2 = task_outcome E t)
    ∧ (∀ t e, t ∈ futures st → task_outcome E t = Raise e →
              Failed (idx t) (total t) (url t) e ∈ stdout s').
Proof.
  rewrite schedule_idle. intros [= <- Herr].
  rewrite download_phase_spec. cbn [futures].
  destruct (decide_all outdir vh entries) as [acts err]; cbn [fst snd] in *.
  destruct err as [e|]; [done|].
  eexists _, _. split; [reflexivity|]. cbn [r_scheduled r_succeeded r_failed stdout].
  set (futs := tasks_of (length entries) 1 0 acts).
  pose proof (as_completed_perm P futs) as Hperm.
  split_and!.
  - done.
  - by apply filter_length_perm.
  - by apply filter_length_perm.
  - rewrite List.filter_length. by apply Permutation_length.
  - intros t d. by rewrite run_task_spec.
  - intros t e Ht He. rewrite !elem_of_app. right. right. left.
    apply list_elem_of_omap. exists t. split.
    + by rewrite Hperm.
    + unfold failure_line. by rewrite He.
Qed.


End PhaseClaims.

(** ** Claims about the scheduling loop *)

Section ScheduleClaims.
Context {RT : Runtime}.

Lemma decide_entry_no_path (outdir : path) (vh : bool) (entry : json) :
  missing_path entry = true → decide_entry outdir vh entry = Ok ASkipNoPath.
Proof.
  unfold missing_path, decide_entry, rbind.
  destruct (get entry "path") as [p|]; [|done]. by intros ->.
Qed.

Lemma decide_entry_no_url (outdir : path) (vh : bool) (entry : json) :
  missing_path entry = false → missing_url entry = true →
  ∃ p, get entry "path" = Ok p ∧ decide_entry outdir vh entry = Ok (ASkipNoUrl p).
Proof.
  unfold missing_path, missing_url, decide_entry, rbind.
  destruct entry as [| | | | |m]; try done. cbn [get].
  intros Hp Hd. eexists. split; [done|].
  apply negb_false_iff in Hp. apply negb_true_iff in Hd.
  by rewrite Hp, truthy_downloads_of, Hd.
Qed.

Lemma decide_entry_string_url (outdir : path) (vh : bool) (entry : json)
    (s u : string) :
  get entry "path" = Ok (JStr s) → s ≠ "" →
  get entry "downloads" = Ok (JStr u) → u ≠ "" →
  ∃ h sz, decide_entry outdir vh entry
          = Ok (ASubmit (JStr s) (JStr u) (joinpath outdir s) h sz).
Proof.
  intros Hp Hs Hd Hu. unfold decide_entry, rbind. rewrite Hp, Hd.
  assert (Hts : truthy (JStr s) = true).
  { simpl. apply negb_true_iff, String.eqb_neq. done. }
  assert (Htu : truthy (JStr u) = true).
  { simpl. apply negb_true_iff, String.eqb_neq. done. }
  rewrite Hts. unfold downloads_of, py_or. rewrite Htu. simpl.
  destruct entry as [| | | | |m]; try done. simpl.
  destruct vh; eauto.
Qed.

Lemma decide_entry_submit (outdir : path) (vh : bool) (entry : json)
    (p u : json) (d : path) (h sz : json) :
  decide_entry outdir vh entry = Ok (ASubmit p u d h sz) →
  ∃ s, p = JStr s ∧ s ≠ "" ∧ d = joinpath outdir s.
Proof.
  unfold decide_entry, rbind.
  destruct (get entry "path") as [p'|]; [|done].
  destruct (truthy p') eqn:Ht; simpl; [|done].
  destruct (get entry "downloads") as [d0|]; [|done].
  destruct (truthy (downloads_of d0)); simpl; [|done].
  destruct (getitem0 (downloads_of d0)); [|done].
  destruct p' as [| | |s| |]; simpl; try done.
  destruct (if vh then get entry "hashes" else Ok JNull); [|done].
  destruct (get entry "fileSize"); [|done].
  intros [= <- <- <- <- <-]. exists s. split_and!; [done| |done].
  intros ->. done.
Qed.

Lemma not_failed_line (total i : nat) (acts : list action) (j tot : nat)
    (u : json) (e : exn) :
  Failed j tot u e ∉ lines_of total i acts.
Proof.
  intros (k & Hk)%list_elem_of_lookup_1. rewrite lines_of_lookup in Hk.
  destruct (acts !! k) as [[]|]; done.
Qed.

(** C8.  An entry without a path, or with a path but without a download
    URL, is never submitted; when the loop finishes, its line is the skip
    line of its case, and no failure line is printed for it.  A non-empty
    string given as [downloads] is submitted as the URL. *)
Theorem missing_path_or_url_is_skipped (outdir : path) (vh : bool)
    (entries : list json) (st : sched) (r : result unit) (i : nat)
    (entry : json) :
  schedule outdir vh (length entries) 1 entries idle = (st, r) →
  entries !! i = Some entry →
  (missing_path entry = true →
     (∀ t, t ∈ futures st → idx t ≠ S i)
     ∧ (r = Ok tt →
        printed st !! i = Some (SkipNoPath (S i) (length entries))))
  ∧ (missing_path entry = false → missing_url entry = true →
     (∀ t, t ∈ futures st → idx t ≠ S i)
     ∧ (r = Ok tt →
        ∃ p, get entry "path" = Ok p
             ∧ printed st !! i = Some (SkipNoUrl (S i) (length entries) p)))
  ∧ (missing_path entry = true ∨ missing_url entry = true →
     ∀ (E : env) (P : pool) (s s' : state) (rep : report),
       download_phase E P outdir vh entries s = (s', Ok rep) →
       ∀ tot u e, Failed (S i) tot u e ∈ stdout s' →
                  Failed (S i) tot u e ∈ stdout s)
  ∧ (∀ s u, get entry "path" = Ok (JStr s) → s ≠ "" →
            get entry "downloads" = Ok (JStr u) → u ≠ "" → r = Ok tt →
            ∃ t, t ∈ futures st ∧ idx t = S i ∧ url t = JStr u
                 ∧ dest t = joinpath outdir s).
Proof.
  rewrite schedule_idle. intros [= <- <-] Hentry. cbn [futures printed].
  set (acts := (decide_all outdir vh entries).1).
  assert (Hnot : ∀ a, decide_entry outdir vh entry = Ok a →
            (∀ p u d h sz, a ≠ ASubmit p u d h sz) →
            ∀ t, t ∈ tasks_of (length entries) 1 0 acts → idx t ≠ S i).
  { intros a Ha Hskip t (k & Hk & Hi & _)%elem_of_tasks_of Hidx.
    assert (k = i) as -> by lia.
    apply decide_all_lookup in Hk as (entry' & He & Hd).
    rewrite Hentry in He. injection He as <-.
    rewrite Ha in Hd. injection Hd as ->. by eapply Hskip. }
  assert (Hline : ∀ a, decide_entry outdir vh entry = Ok a →
            (decide_all outdir vh entries).2 = None →
            lines_of (length entries) 1 acts !! i
            = Some (line_of (length entries) (S i) a)).
  { intros a Ha Hnone. rewrite lines_of_lookup.
    destruct (decide_all_reached outdir vh entries i entry Hentry)
      as (a' & Ha' & Hd).
    - rewrite decide_all_complete by done. by eapply lookup_lt_Some.
    - fold acts in Ha'. rewrite Ha'. simpl. congruence. }
  assert (Hok : (match (decide_all outdir vh entries).2 with
                 | Some e => Raise e | None => Ok tt end) = Ok tt →
                (decide_all outdir vh entries).2 = None).
  { by destruct ((decide_all outdir vh entries).2). }
  split_and!.
  - intros Hp. pose proof (decide_entry_no_path outdir vh entry Hp) as Hd.
    split; [by eapply Hnot|]. intros Hr. by rewrite (Hline _ Hd (Hok Hr)).
  - intros Hp Hu.
    destruct (decide_entry_no_url outdir vh entry Hp Hu) as (p & Hget & Hd).
    split; [by eapply Hnot|]. intros Hr. exists p. split; [done|].
    by rewrite (Hline _ Hd (Hok Hr)).
  - intros Hmiss E P s s' rep. rewrite download_phase_spec.
    fold acts. cbn zeta.
    destruct ((decide_all outdir vh entries).2) as [e|]; [done|].
    intros [= <- _] tot u e. cbn [stdout]. rewrite !elem_of_app.
    intros [?|[Hl|[Hf|Hs]]]; [done| | |].
    + by apply not_failed_line in Hl.
    + apply list_elem_of_omap in Hf as (t & Ht & Hf).
      unfold failure_line in Hf. destruct (task_outcome E t); [done|].
      injection Hf as Hi _ _ _. rewrite (as_completed_perm P) in Ht.
      exfalso. destruct (missing_path entry) eqn:Hp.
      * eapply (Hnot _ (decide_entry_no_path outdir vh entry Hp)); done.
      * destruct Hmiss as [?|Hu]; [done|].
        destruct (decide_entry_no_url outdir vh entry Hp Hu) as (p & _ & Hd).
        eapply (Hnot _ Hd); done.
    + by apply list_elem_of_singleton in Hs.
  - intros s u Hp Hs Hd Hu Hr.
    destruct (decide_entry_string_url outdir vh entry s u Hp Hs Hd Hu)
      as (h & sz & Hdec).
    destruct (decide_all_reached outdir vh entries i entry Hentry)
      as (a' & Ha' & Hd').
    { rewrite decide_all_complete by (by apply Hok).
      by eapply lookup_lt_Some. }
    rewrite Hdec in Hd'. injection Hd' as <-.
    destruct (tasks_of_submitted (length entries) 1 0 _ _ _ _ _ _ _ Ha')
      as (t & Ht & Hi & _ & Hurl & Hdest & _).
    exists t. split_and!; done.
Qed.

Lemma resolve_snoc (p : path) (c : string) :
  resolve (p ++ [c])
  = if String.eqb c ".." then removelast (resolve p) else resolve p ++ [c].
Proof. unfold resolve. by rewrite foldl_app. Qed.

Lemma resolve_app_plain (base parts : path) :
  ".." ∉ parts → resolve (base ++ parts) = resolve base ++ parts.
Proof.
  induction parts as [|c parts IH] using rev_ind; intros Hno.
  - by rewrite !app_nil_r.
  - rewrite (assoc_L (++)), resolve_snoc.
    rewrite IH by (intros ?; apply Hno, elem_of_app; by left).
    destruct (String.eqb_spec c "..") as [->|_].
    + exfalso. apply Hno, elem_of_app. right. by apply list_elem_of_singleton.
    + by rewrite (assoc_L (++)).
Qed.

(** C9, as the code has it.  A future is submitted only for a non-empty
    string path, and its destination is the output directory joined with
    that path as written: a relative path without parent-directory
    components lands inside the output directory. *)
Theorem destination_is_joined_verbatim (outdir : path) (vh : bool)
    (total i : nat) (entries : list json) (st : sched) (r : result unit)
    (t : task) :
  schedule outdir vh total i entries idle = (st, r) →
  t ∈ futures st →
  ∃ s, path_of t = JStr s ∧ s ≠ "" ∧ dest t = joinpath outdir s
       ∧ (is_absolute s = false → ".." ∉ parse_parts s →
          inside outdir (dest t)).
Proof.
  rewrite schedule_spec. intros [= <- _]. cbn [futures idle app].
  intros (k & Hk & _ & _)%elem_of_tasks_of.
  apply decide_all_lookup in Hk as (entry & _ & Hd).
  apply decide_entry_submit in Hd as (s & Hp & Hs & Hdest).
  exists s. split_and!; try done.
  intros Hrel Hplain. rewrite Hdest. unfold inside, joinpath. rewrite Hrel.
  rewrite resolve_app_plain by done. by apply prefix_app_r.
Qed.

End ScheduleClaims.

(** ** The server filter *)

Section FilterClaims.
Context {RT : Runtime}.

Lemma get_server_of_env (e : gmap string json) :
  get (py_or (JObj e) (JObj ∅)) "server" = Ok (default JNull (e !! "server")).
Proof.
  unfold py_or. destruct (truthy (JObj e)) eqn:Ht; [done|].
  simpl in Ht. apply negb_false_iff, bool_decide_eq_true_1 in Ht as ->.
  done.
Qed.

Lemma server_relevant_typed (entry : json) :
  env_typed entry = true →
  server_relevant entry = Ok (tag_kept (server_tag entry)).
Proof.
  unfold env_typed, server_relevant, server_tag, rbind.
  destruct entry as [| | | | |m]; try done. cbn [get].
  destruct (m !! "env") as [[| | | | |e]|]; try done; intros _.
  unfold default at 1, from_option, id. rewrite get_server_of_env.
  unfold default, from_option, id.
  by destruct (e !! "server") as [[| | |s| |]|].
Qed.

(** C7.  Without the server mode every entry is kept, in order.  With it,
    and entries that are objects whose [env], if any, is an object, the kept
    entries are exactly those whose [env.server] tag is required, optional,
    unknown or absent, in order. *)
Theorem server_filter_keeps_tagged :
  (∀ files : list json, filter_files false files = Ok files)
  ∧ (∀ files : list json,
       forallb env_typed files = true →
       filter_files true files
       = Ok (List.filter (fun entry => tag_kept (server_tag entry)) files))
  ∧ (∀ tag : json,
       tag_kept tag = true
       ↔ tag = JNull ∨ tag = JStr "required" ∨ tag = JStr "optional"
         ∨ tag = JStr "unknown").
Proof.
  split_and!.
  - intros l. induction l as [|entry rest IH]; [done|].
    simpl. by rewrite IH.
  - intros l. induction l as [|entry rest IH]; [done|].
    cbn [forallb]. intros [He Hrest]%andb_prop.
    cbn [filter_files List.filter]. unfold rbind.
    rewrite server_relevant_typed, IH by done.
    by destruct (tag_kept (server_tag entry)).
  - intros tag. split.
    + destruct tag as [| | |s| |]; try done; [by left|]. simpl.
      intros [[Hs|Hs]%orb_true_iff|Hs]%orb_true_iff;
        apply String.eqb_eq in Hs as ->; eauto.
    + by intros [->|[->|[->| ->]]].
Qed.

End FilterClaims.

(** ** The exit code *)

Section ExitClaims.
Context {RT : Runtime}.
Variable E : env.
Variable P : pool.











End ExitClaims.

(** ** The statements on concrete runs *)

Module Runs.
Import Demo.

(** The download of [a.jar] against a wrong SHA-1 raises the mismatch and
    leaves the three bytes on the disk. *)
Lemma digest_mismatch_leaves_file_witness :
  ∃ d',
    download_file (RT := demo_runtime JNull) demo_env
      (JStr "https://cdn.example/a.jar") b_jar (JObj wrong_hashes) 0 JNull ∅
    = (d', Raise (ValueError
                    (mismatch_message "SHA1" b_jar zero_sha1
                       (sha1_hexdigest (Runtime := demo_runtime JNull)
                          (body abc_stream)))))
    ∧ d' !! resolve b_jar = Some (body abc_stream).
Proof.
  apply (digest_mismatch_leaves_file (RT := demo_runtime JNull) demo_env
           "https://cdn.example/a.jar" b_jar wrong_hashes zero_sha1 abc_stream
           0 JNull ∅); try reflexivity.
  intros Heq. vm_compute in Heq. discriminate Heq.
Defined.

(** The download of [broken.jar] raises the transport's error and removes
    the two bytes written; the collecting loop counts one failure. *)
Lemma transport_error_cleanup_witness :
  download_file (RT := demo_runtime JNull) demo_env
    (JStr "https://cdn.example/broken.jar") c_jar JNull 0 JNull ∅
  = (if unlink_ok demo_env (resolve c_jar) then delete (resolve c_jar) ∅
     else <[resolve c_jar := body broken_stream]> ∅,
     Raise (RequestException "Connection broken: IncompleteRead"))
  ∧ ∀ (r : report) (t : task) (st : state),
      url t = JStr "https://cdn.example/broken.jar" → dest t = c_jar →
      expected_hashes t = JNull →
      (collect_one (RT := demo_runtime JNull) demo_env r t st).2
      = Ok {| r_scheduled := r_scheduled r; r_succeeded := r_succeeded r;
              r_failed := r_failed r + 1 |}
      ∧ stdout (collect_one (RT := demo_runtime JNull) demo_env r t st).1
        = stdout st
          ++ [Failed (idx t) (total t) (JStr "https://cdn.example/broken.jar")
                (RequestException "Connection broken: IncompleteRead")].
Proof.
  apply (transport_error_cleanup (RT := demo_runtime JNull) demo_env
           "https://cdn.example/broken.jar" c_jar JNull broken_stream
           "Connection broken: IncompleteRead" 0 JNull ∅); reflexivity.
Defined.



(** With verification off the futures of the scenario carry no expected
    digests, and an [md5] entry changes nothing of a download. *)
Lemma digest_mismatch_only_when_verifying_witness :
  Forall (fun t => expected_hashes t = JNull)
         (futures (schedule out_root false 3 1 three_files idle).1)
  ∧ download_file (RT := demo_runtime JNull) demo_env
      (JStr "https://cdn.example/a.jar") b_jar
      (JObj (<["md5" := JStr "900150983cd24fb0d6963f7d28e17f72"]> wrong_hashes))
      0 JNull ∅
    = download_file (RT := demo_runtime JNull) demo_env
        (JStr "https://cdn.example/a.jar") b_jar (JObj wrong_hashes) 0 JNull ∅.
Proof.
  destruct (digest_mismatch_only_when_verifying (RT := demo_runtime JNull)
              demo_env) as (Hoff & _ & _ & Hother).
  split.
  - apply (Hoff out_root 3 1 three_files _
             (schedule out_root false 3 1 three_files idle).2).
    apply surjective_pairing.
  - apply Hother; intros Heq; discriminate Heq.
Defined.

(** The scenario of the server mode: required, unsupported, absent. *)
Lemma server_filter_keeps_tagged_witness :
  filter_files true server_entries
  = Ok (List.filter (fun entry => tag_kept (server_tag entry)) server_entries)
  ∧ List.filter (fun entry => tag_kept (server_tag entry)) server_entries
    = [good_entry; string_url_entry]
  ∧ filter_files false server_entries = Ok server_entries.
Proof.
  destruct server_filter_keeps_tagged as (Hall & Hsome & _).
  split_and!.
  - apply Hsome. vm_compute. reflexivity.
  - vm_compute. reflexivity.
  - apply Hall.
Defined.

(** The scenario of three files: two succeed, one fails on its digest. *)
Lemma summary_counts_witness :
  let run := download_phase (RT := demo_runtime JNull) demo_env lifo_pool
               out_root true (no_path_entry :: three_files) empty_state in
  let rep := {| r_scheduled := 3; r_succeeded := 2; r_failed := 1 |} in
  run.2 = Ok rep
  ∧ r_succeeded rep + r_failed rep = r_scheduled rep
  ∧ r_scheduled rep + count_skipped (stdout run.1)
    = length (no_path_entry :: three_files) + count_skipped (stdout empty_state)
  ∧ last (stdout run.1) = Some (Summary (r_succeeded rep) (r_scheduled rep)).
Proof.
  intros run rep. split; [vm_compute; reflexivity|].
  apply (summary_counts (RT := demo_runtime JNull) demo_env lifo_pool out_root
           true (no_path_entry :: three_files) empty_state run.1 rep).
  vm_compute. reflexivity.
Defined.

(** Two failing downloads and a good one: the good one still succeeds. *)
Lemma failures_are_isolated_witness :
  let entries := failing_entries ++ [good_entry] in
  let st := (schedule out_root true 3 1 entries idle).1 in
  ∃ s' rep,
    download_phase (RT := demo_runtime JNull) demo_env lifo_pool out_root true
                   entries empty_state = (s', Ok rep)
    ∧ r_scheduled rep = length (futures st)
    ∧ r_succeeded rep
      = length (List.filter (succeeds (RT := demo_runtime JNull) demo_env)
                            (futures st))
    ∧ r_failed rep
      = length (failing (RT := demo_runtime JNull) demo_env (futures st))
    ∧ r_succeeded rep + r_failed rep = length (futures st)
    ∧ (∀ t d, (run_task (RT := demo_runtime JNull) demo_env t d).2
              = task_outcome (RT := demo_runtime JNull) demo_env t)
    ∧ (∀ t e, t ∈ futures st →
              task_outcome (RT := demo_runtime JNull) demo_env t = Raise e →
              Failed (idx t) (total t) (url t) e ∈ stdout s').
Proof.
  intros entries st.
  apply (failures_are_isolated (RT := demo_runtime JNull) demo_env lifo_pool
           out_root true entries empty_state st).
  vm_compute. reflexivity.
Defined.


(** The entry without a path is skipped with its own line; the string given
    as [downloads] is submitted. *)
Lemma missing_path_or_url_is_skipped_witness :
  let st := (schedule out_root false 3 1 skip_entries idle).1 in
  (∀ t, t ∈ futures st → idx t ≠ 1)
  ∧ printed st !! 0 = Some (SkipNoPath 1 3)
  ∧ (∀ t, t ∈ futures st → idx t ≠ 2)
  ∧ (∃ p, get no_url_entry "path" = Ok p
          ∧ printed st !! 1 = Some (SkipNoUrl 2 3 p))
  ∧ (∃ t, t ∈ futures st ∧ idx t = 3
          ∧ url t = JStr "https://cdn.example/a.jar"
          ∧ dest t = joinpath out_root "mods/f.jar").
Proof.
  intros st.
  assert (Hrun : schedule out_root false (length skip_entries) 1 skip_entries
                          idle = (st, Ok tt)).
  { vm_compute. reflexivity. }
  destruct (missing_path_or_url_is_skipped (RT := demo_runtime JNull)
              out_root false skip_entries st
              (Ok tt) 0 no_path_entry Hrun eq_refl) as (Hpath & _ & _ & _).
  destruct (missing_path_or_url_is_skipped (RT := demo_runtime JNull)
              out_root false skip_entries st
              (Ok tt) 1 no_url_entry Hrun eq_refl) as (_ & Hurl & _ & _).
  destruct (missing_path_or_url_is_skipped (RT := demo_runtime JNull)
              out_root false skip_entries st
              (Ok tt) 2 string_url_entry Hrun eq_refl) as (_ & _ & _ & Hstr).
  destruct (Hpath eq_refl) as [Hp1 Hp2].
  destruct (Hurl eq_refl eq_refl) as [Hu1 Hu2].
  split_and!.
  - exact Hp1.
  - exact (Hp2 eq_refl).
  - exact Hu1.
  - exact (Hu2 eq_refl).
  - apply (Hstr "mods/f.jar" "https://cdn.example/a.jar");
      try reflexivity; intros Heq; discriminate Heq.
Defined.

(** A plain relative path lands below the output directory. *)
Lemma destination_is_joined_verbatim_witness :
  a_task ∈ futures (schedule out_root false 3 1 three_files idle).1
  ∧ ∃ s, path_of a_task = JStr s ∧ s ≠ "" ∧ dest a_task = joinpath out_root s
         ∧ inside out_root (dest a_task).
Proof.
  assert (Hin : a_task ∈ futures (schedule out_root false 3 1 three_files idle).1).
  { apply list_elem_of_lookup. exists 0. vm_compute. reflexivity. }
  split; [exact Hin|].
  destruct (destination_is_joined_verbatim out_root false 3 1 three_files
              (schedule out_root false 3 1 three_files idle).1
              (schedule out_root false 3 1 three_files idle).2 a_task
              (surjective_pairing _) Hin) as (s & Hp & Hs & Hd & Hinside).
  exists s. split_and!; try assumption.
  injection Hp as <-. apply Hinside; [reflexivity|].
  apply (bool_decide_unpack _). vm_compute. exact I.
Defined.


(** ** Where the code departs from the specification *)



(** C5.  No skipped count is kept: a run of one good file and a run of the
    same file with an entry without a path end with the same counters, so
    nothing computed from the counters adds up to the number of entries. *)
Lemma no_skipped_counter :
  ¬ (∃ skipped : report → nat,
       ∀ (entries : list json) (s' : state) (rep : report),
         download_phase (RT := demo_runtime JNull) demo_env fifo_pool out_root
                        false entries empty_state = (s', Ok rep) →
         r_scheduled rep + skipped rep = length entries).
Proof.
  intros [skipped Hclaim].
  pose (rep := {| r_scheduled := 1; r_succeeded := 1; r_failed := 0 |}).
  assert (H1 : r_scheduled rep + skipped rep = length [good_entry]).
  { apply (Hclaim [good_entry]
             (download_phase (RT := demo_runtime JNull) demo_env fifo_pool
                out_root false [good_entry] empty_state).1).
    vm_compute. reflexivity. }
  assert (H2 : r_scheduled rep + skipped rep
               = length [good_entry; no_path_entry]).
  { apply (Hclaim [good_entry; no_path_entry]
             (download_phase (RT := demo_runtime JNull) demo_env fifo_pool
                out_root false [good_entry; no_path_entry] empty_state).1).
    vm_compute. reflexivity. }
  simpl in H1, H2. lia.
Qed.

(** C9.  A path with parent-directory components is submitted and its file
    is written outside the output directory. *)
Lemma escaping_path_is_written_outside :
  ∃ s' rep,
    download_phase (RT := demo_runtime JNull) demo_env fifo_pool out_root
                   false [escaping_entry] empty_state = (s', Ok rep)
    ∧ r_succeeded rep = 1
    ∧ files s' !! ["home"; "etc"; "evil"] = Some (bytes "abc")
    ∧ ¬ inside out_root ["home"; "etc"; "evil"].
Proof.
  eexists _, _. split_and!.
  - vm_compute. reflexivity.
  - reflexivity.
  - vm_compute. reflexivity.
  - unfold inside. intros [k Hk]. vm_compute in Hk. discriminate Hk.
Qed.

End Runs.


(** * Further properties of the code *)

(** ** [sanitize_for_filename] *)

Section NamingFacts.

Lemma chars_inj (s t : string) : chars s = chars t → s = t.
Proof.
  intros Heq. rewrite <- (string_of_list_ascii_of_string s),
    <- (string_of_list_ascii_of_string t). by rewrite Heq.
Qed.

Lemma chars_length (s : string) : length (chars s) = String.length s.
Proof. induction s as [|c s IH]; simpl; [done|]. by rewrite IH. Qed.

Lemma last_rev {A} (l : list A) : last (rev l) = head l.
Proof. destruct l as [|x l]; [done|]. simpl. apply last_snoc. Qed.

Lemma head_rev {A} (l : list A) : head (rev l) = last l.
Proof. rewrite <- (rev_involutive l) at 2. by rewrite last_rev. Qed.

Lemma chars_rev_string (s : string) : chars (rev_string s) = rev (chars s).
Proof. unfold rev_string. apply list_ascii_of_string_of_list_ascii. Qed.

Lemma rev_string_involutive (s : string) : rev_string (rev_string s) = s.
Proof.
  apply chars_inj. by rewrite !chars_rev_string, rev_involutive.
Qed.

Lemma lstrip_chars (s : string) :
  ∃ pre, chars s = pre ++ chars (lstrip s) ∧ Forall (eq " "%char) pre.
Proof.
  induction s as [|c s (pre & Hs & Hpre)]; simpl.
  - by exists [].
  - destruct (Ascii.eqb_spec c " ") as [->|Hc].
    + exists (" "%char :: pre). split; [by rewrite Hs|by constructor].
    + by exists [].
Qed.

Lemma lstrip_head (s : string) : head (chars (lstrip s)) ≠ Some " "%char.
Proof.
  induction s as [|c s IH]; simpl; [done|].
  destruct (Ascii.eqb_spec c " ") as [->|Hc]; [done|].
  simpl. by intros [= ->].
Qed.

Lemma lstrip_fixed (s : string) :
  head (chars s) ≠ Some " "%char → lstrip s = s.
Proof.
  destruct s as [|c s]; simpl; [done|].
  destruct (Ascii.eqb_spec c " ") as [->|Hc]; done.
Qed.

(** [strip] removes the blanks at both ends and nothing else. *)
Lemma strip_chars (s : string) :
  ∃ pre post,
    chars s = pre ++ chars (strip s) ++ post
    ∧ Forall (eq " "%char) pre ∧ Forall (eq " "%char) post
    ∧ head (chars (strip s)) ≠ Some " "%char
    ∧ last (chars (strip s)) ≠ Some " "%char.
Proof.
  unfold strip.
  destruct (lstrip_chars s) as (pre & Hs & Hpre).
  destruct (lstrip_chars (rev_string (lstrip s))) as (post & Hb & Hpost).
  rewrite chars_rev_string in Hb.
  exists pre, (rev post). rewrite chars_rev_string. split_and!.
  - rewrite Hs. f_equal. rewrite <- rev_app_distr, <- Hb.
    by rewrite rev_involutive.
  - done.
  - apply Forall_forall. intros c Hc. rewrite Forall_forall in Hpost.
    apply Hpost. apply list_elem_of_In. apply list_elem_of_In, in_rev in Hc.
    done.
  - rewrite head_rev. intros Hlast.
    pose proof (lstrip_head s) as Hhead.
    apply last_Some in Hlast as [l' Hl'].
    assert (Hlast : last (rev (chars (lstrip s))) = Some " "%char).
    { rewrite Hb, Hl', (assoc_L (++)). apply last_snoc. }
    by rewrite last_rev in Hlast.
  - rewrite last_rev. apply lstrip_head.
Qed.

Lemma strip_fixed (s : string) :
  head (chars s) ≠ Some " "%char → last (chars s) ≠ Some " "%char →
  strip s = s.
Proof.
  intros Hh Hl. unfold strip. rewrite (lstrip_fixed s Hh).
  rewrite lstrip_fixed; [apply rev_string_involutive|].
  by rewrite chars_rev_string, head_rev.
Qed.

Lemma replace_safe (c : ascii) :
  safe_char (if keep_char c then c else "_"%char) = true.
Proof.
  unfold safe_char. destruct (keep_char c) eqn:Hk; [by rewrite Hk|done].
Qed.

Lemma replace_fixed (c : ascii) :
  safe_char c = true → (if keep_char c then c else "_"%char) = c.
Proof.
  unfold safe_char. destruct (keep_char c); [done|]. simpl.
  by intros ->%Ascii.eqb_eq.
Qed.

Lemma sanitize_chars (name : string) :
  ∃ pre post,
    map (fun c => if keep_char c then c else "_"%char) (chars name)
    = pre ++ chars (sanitize_for_filename name) ++ post.
Proof.
  unfold sanitize_for_filename.
  destruct (strip_chars (string_of_list_ascii
              (map (fun c => if keep_char c then c else "_"%char) (chars name))))
    as (pre & post & Hs & _).
  rewrite list_ascii_of_string_of_list_ascii in Hs. eauto.
Qed.

Lemma sanitize_safe (name : string) :
  Forall (fun c => safe_char c = true) (chars (sanitize_for_filename name)).
Proof.
  destruct (sanitize_chars name) as (pre & post & Hs).
  assert (Hmap : Forall (fun c => safe_char c = true)
                   (map (fun c => if keep_char c then c else "_"%char)
                        (chars name))).
  { apply Forall_forall. intros c (c' & -> & _)%list_elem_of_fmap.
    apply replace_safe. }
  rewrite Hs in Hmap.
  by apply Forall_app in Hmap as [_ [? _]%Forall_app].
Qed.

Lemma sanitize_ends (name : string) :
  head (chars (sanitize_for_filename name)) ≠ Some " "%char
  ∧ last (chars (sanitize_for_filename name)) ≠ Some " "%char.
Proof.
  unfold sanitize_for_filename.
  destruct (strip_chars (string_of_list_ascii
              (map (fun c => if keep_char c then c else "_"%char) (chars name))))
    as (pre & post & _ & _ & _ & Hh & Hl).
  done.
Qed.

Lemma sanitize_fixed (name : string) :
  Forall (fun c => safe_char c = true) (chars name) →
  head (chars name) ≠ Some " "%char → last (chars name) ≠ Some " "%char →
  sanitize_for_filename name = name.
Proof.
  intros Hsafe Hhead Hlast. unfold sanitize_for_filename.
  assert (Hmap : map (fun c => if keep_char c then c else "_"%char) (chars name)
                 = chars name).
  { clear -Hsafe. induction Hsafe as [|c l Hc _ IH]; [done|].
    simpl. by rewrite IH, (replace_fixed c Hc). }
  rewrite Hmap, string_of_list_ascii_of_string. by apply strip_fixed.
Qed.

(** X1.  Every character of the sanitized name is alphanumeric in the
    sense of [str.isalnum] (an accented letter is), one of [" ._-()"], or
    an underscore: the name holds no slash and no backslash, and it is no
    longer than the name given. *)
Theorem sanitize_only_safe_characters (name : string) :
  Forall (fun c => safe_char c = true) (chars (sanitize_for_filename name))
  ∧ ("/"%char ∉ chars (sanitize_for_filename name))
  ∧ ("\"%char ∉ chars (sanitize_for_filename name))
  ∧ (String.length (sanitize_for_filename name) ≤ String.length name)%nat.
Proof.
  pose proof (sanitize_safe name) as Hall.
  split_and!.
  - done.
  - intros Hin. rewrite Forall_forall in Hall. by apply Hall in Hin.
  - intros Hin. rewrite Forall_forall in Hall. by apply Hall in Hin.
  - destruct (sanitize_chars name) as (pre & post & Hs).
    apply (f_equal length) in Hs.
    rewrite length_map, !length_app, !chars_length in Hs. lia.
Qed.

(** X2.  The sanitized name neither starts nor ends with a blank, and a
    name made of safe characters with no blank at either end is returned
    as it is. *)
Theorem sanitize_strips_and_fixes (name : string) :
  head (chars (sanitize_for_filename name)) ≠ Some " "%char
  ∧ last (chars (sanitize_for_filename name)) ≠ Some " "%char
  ∧ (Forall (fun c => safe_char c = true) (chars name) →
     head (chars name) ≠ Some " "%char → last (chars name) ≠ Some " "%char →
     sanitize_for_filename name = name).
Proof.
  destruct (sanitize_ends name) as [Hh Hl].
  split_and!; [done|done|]. apply sanitize_fixed.
Qed.

(** X3.  Sanitizing twice is sanitizing once. *)
Theorem sanitize_idempotent (name : string) :
  sanitize_for_filename (sanitize_for_filename name)
  = sanitize_for_filename name.
Proof.
  destruct (sanitize_ends name) as [Hh Hl].
  apply sanitize_fixed; [apply sanitize_safe|done|done].
Qed.

End NamingFacts.

(** ** The default output folder and the archive's members *)

Section ArchiveFacts.
Context {RT : Runtime}.

Lemma split_slash_plain (s : string) :
  "/"%char ∉ chars s → split_slash s = [s].
Proof.
  induction s as [|c s IH]; simpl; [done|]. intros Hno.
  destruct (Ascii.eqb_spec c "/") as [->|Hc].
  - exfalso. apply Hno. by left.
  - rewrite IH; [done|]. intros Hin. apply Hno. by right.
Qed.

Lemma not_absolute_plain (s : string) :
  "/"%char ∉ chars s → is_absolute s = false.
Proof.
  unfold is_absolute. destruct s as [|c s]; [done|].
  cbn [String.prefix list_ascii_of_string]. intros Hno.
  destruct (ascii_dec "/" c) as [<-|Hc]; [|done].
  exfalso. apply Hno. by left.
Qed.

Lemma parse_parts_plain (s : string) :
  "/"%char ∉ chars s →
  parse_parts s = if String.eqb s "" || String.eqb s "." then [] else [s].
Proof.
  intros Hno. unfold parse_parts. rewrite split_slash_plain by done.
  rewrite filter_cons, filter_nil.
  destruct (String.eqb_spec s "") as [->|Hne];
    [|destruct (String.eqb_spec s ".") as [->|Hnd]];
    cbn [orb]; destruct (decide _) as [[H1 H2]|Hn]; try done.
  exfalso. by apply Hn.
Qed.

(** X4.  Without [--outdir], a manifest with a non-empty string name puts
    the output next to the archive: the archive's directory with at most one
    component appended, the sanitized name; a name that sanitizes to the
    empty string or to a dot gives the archive's directory itself. *)
Theorem default_outdir_next_to_archive (mrpack_path : path)
    (m : gmap string json) (name : string) :
  m !! "name" = Some (JStr name) → name ≠ "" →
  default_outdir mrpack_path (Some (JObj m))
  = Ok (parent mrpack_path
        ++ (if String.eqb (sanitize_for_filename name) ""
               || String.eqb (sanitize_for_filename name) "."
            then [] else [sanitize_for_filename name])).
Proof.
  intros Hm Hname. unfold default_outdir. rewrite Hm.
  rewrite (truthy_obj_lookup m "name" _ Hm). simpl.
  rewrite (proj2 (String.eqb_neq name "") Hname). simpl.
  assert (Hno : "/"%char ∉ chars (sanitize_for_filename name)).
  { intros Hin. pose proof (sanitize_safe name) as Hall.
    rewrite Forall_forall in Hall. by apply Hall in Hin. }
  unfold joinpath. by rewrite not_absolute_plain, parse_parts_plain.
Qed.

Lemma replace_backslash_app (a b : string) :
  replace_backslash (a +:+ b) = replace_backslash a +:+ replace_backslash b.
Proof. induction a as [|c a IH]; simpl; [done|]. by rewrite IH. Qed.

Lemma replace_backslash_plain (s : string) :
  "\"%char ∉ chars s → replace_backslash s = s.
Proof.
  induction s as [|c s IH]; simpl; [done|]. intros Hno.
  destruct (Ascii.eqb_spec c "\") as [->|Hc].
  - exfalso. apply Hno. by left.
  - rewrite IH; [done|]. intros Hin. apply Hno. by right.
Qed.

Lemma split_slash_nonempty (s : string) : split_slash s ≠ [].
Proof.
  induction s as [|c s IH]; simpl; [done|].
  destruct (Ascii.eqb c "/"); [done|]. by destruct (split_slash s).
Qed.

Lemma split_slash_app (a b : string) :
  split_slash (a +:+ "/" +:+ b) = split_slash a ++ split_slash b.
Proof.
  induction a as [|c a IH]; simpl; [done|].
  destruct (Ascii.eqb c "/"); [by rewrite IH|].
  rewrite IH. pose proof (split_slash_nonempty a).
  by destruct (split_slash a).
Qed.

Lemma last_app_nonempty {A} (l1 l2 : list A) (d : A) :
  l2 ≠ [] → List.last (l1 ++ l2) d = List.last l2 d.
Proof.
  intros Hne. induction l1 as [|x l1 IH]; [done|].
  simpl. rewrite IH. destruct (l1 ++ l2) eqn:Happ; [|done].
  by apply app_eq_nil in Happ as [_ ->].
Qed.

(** X5.  A member is taken for the manifest by its base name alone,
    compared without regard to case: in any directory, behind a slash or a
    backslash. *)
Theorem manifest_name_in_any_directory (dir base : string) :
  "/"%char ∉ chars base → "\"%char ∉ chars base →
  is_index_name base = String.eqb (lower base) "modrinth.index.json"
  ∧ is_index_name (dir +:+ "/" +:+ base) = is_index_name base
  ∧ is_index_name (dir +:+ "\" +:+ base) = is_index_name base.
Proof.
  intros Hslash Hback. unfold is_index_name.
  rewrite !replace_backslash_app, (replace_backslash_plain base Hback).
  change (replace_backslash "/") with "/".
  change (replace_backslash "\") with "/".
  rewrite !split_slash_app, (split_slash_plain base Hslash).
  by rewrite !last_app_nonempty.
Qed.

Lemma find_first {A} (f : A → bool) (l : list A) (x : A) :
  List.find f l = Some x →
  ∃ l1 l2, l = l1 ++ x :: l2 ∧ f x = true ∧ Forall (fun y => f y = false) l1.
Proof.
  induction l as [|y l IH]; simpl; [done|].
  destruct (f y) eqn:Hy.
  - intros [= ->]. by exists [], l.
  - intros (l1 & l2 & -> & Hx & Hl1)%IH.
    exists (y :: l1), l2. split_and!; [done|done|by constructor].
Qed.

Lemma find_nothing {A} (f : A → bool) (l : list A) :
  List.find f l = None ↔ Forall (fun y => f y = false) l.
Proof.
  induction l as [|y l IH]; simpl; [by split; [constructor|]|].
  destruct (f y) eqn:Hy.
  - split; [done|]. intros [Hf _]%Forall_cons. congruence.
  - rewrite IH. split; [by constructor|by intros [_ ?]%Forall_cons].
Qed.

(** X6.  [find_index_and_overrides] returns the first member named as the
    manifest, and none exactly when no member is; it reports overrides
    exactly when some member is the overrides folder or below it, and the
    prefix it returns is then always ["overrides/"]. *)
Theorem find_index_and_overrides_first_match (z : zipfile) :
  (∀ name, (find_index_and_overrides z).1.1 = Some name →
     ∃ before after,
       namelist z = before ++ name :: after ∧ is_index_name name = true
       ∧ Forall (fun n => is_index_name n = false) before)
  ∧ ((find_index_and_overrides z).1.1 = None
     ↔ Forall (fun n => is_index_name n = false) (namelist z))
  ∧ ((find_index_and_overrides z).1.2 = true
     ↔ ∃ n, n ∈ namelist z ∧ is_overrides_name n = true)
  ∧ ((find_index_and_overrides z).2
     = if (find_index_and_overrides z).1.2 then Some "overrides/" else None).
Proof.
  unfold find_index_and_overrides. cbn [fst snd]. split_and!.
  - intros name. apply find_first.
  - apply find_nothing.
  - destruct (List.find is_overrides_name (namelist z)) as [n|] eqn:Hf.
    + split; [|done]. intros _.
      apply find_first in Hf as (l1 & l2 & Hl & Hn & _).
      exists n. split; [|done]. rewrite Hl. apply elem_of_app. right. by left.
    + split; [done|]. intros (n & Hin & Hn).
      apply find_nothing in Hf. rewrite Forall_forall in Hf.
      apply Hf in Hin. congruence.
  - by destruct (List.find is_overrides_name (namelist z)).
Qed.


End ArchiveFacts.

(** ** [extract_overrides] *)

Section ExtractFacts.
Context {RT : Runtime}.
Variable E : env.
Hypothesis mkdir_allowed : ∀ p, mkdir_ok E p = true.
Hypothesis open_allowed : ∀ p, open_ok E p = true.

Lemma extract_member_spec (z : zipfile) (prefix : string) (dest : path)
    (count : nat) (member : string) (d : gmap (list string) (list byte)) :
  String.prefix prefix (replace_backslash member) = true →
  extract_member E z prefix dest count member d
  = if is_file_member prefix member
    then (<[resolve (joinpath dest (relpath_of prefix member)) := read z member]> d,
          Ok (count + 1))
    else (d, Ok count).
Proof using mkdir_allowed open_allowed.
  intros Hunder. unfold extract_member, is_file_member. rewrite Hunder.
  fold (relpath_of prefix member).
  destruct (String.eqb (relpath_of prefix member) ""); [done|].
  unfold bind, Fs.mkdir, Fs.open_wb, Fs.write, ret.
  destruct (ends_with_slash member); rewrite ?mkdir_allowed; simpl; [done|].
  rewrite open_allowed. by rewrite alter_insert_nil.
Qed.

Lemma filter_file_members (prefix : string) (l : list string) :
  List.filter (is_file_member prefix)
    (List.filter (fun n => String.prefix prefix (replace_backslash n)) l)
  = List.filter (is_file_member prefix) l.
Proof.
  induction l as [|n l IH]; [done|]. simpl.
  destruct (String.prefix prefix (replace_backslash n)) eqn:Hn; simpl.
  - by rewrite IH.
  - rewrite IH.
    assert (is_file_member prefix n = false) as ->; [|done].
    unfold is_file_member. by rewrite Hn.
Qed.

(** On a disk that accepts the files, extraction writes each copied member
    to its location and returns their number. *)
Lemma extract_overrides_spec (z : zipfile) (prefix : string) (dest : path)
    (d : gmap (list string) (list byte)) :
  extract_overrides E z prefix dest d
  = (write_all (extraction_writes z prefix dest) d,
     Ok (length (extraction_writes z prefix dest))).
Proof using mkdir_allowed open_allowed.
  unfold extract_overrides, extraction_writes.
  rewrite <- (filter_file_members prefix (namelist z)).
  assert (Hunder : Forall (fun n => String.prefix prefix (replace_backslash n) = true)
            (List.filter (fun n => String.prefix prefix (replace_backslash n))
                         (namelist z))).
  { apply Forall_forall. intros n Hn.
    by apply list_elem_of_In, List.filter_In in Hn as [_ ?]. }
  revert Hunder.
  generalize (List.filter (fun n => String.prefix prefix (replace_backslash n))
                          (namelist z)) as l.
  intros l Hunder.
  enough (Hgen : ∀ count d0,
    for_each (extract_member E z prefix dest) count l d0
    = (write_all ((fun member =>
                     (resolve (joinpath dest (relpath_of prefix member)),
                      read z member))
                  <$> List.filter (is_file_member prefix) l) d0,
       Ok (count + length (List.filter (is_file_member prefix) l)))).
  { rewrite Hgen. by rewrite length_fmap. }
  induction Hunder as [|n l Hn _ IH]; intros count d0; simpl.
  - by rewrite Nat.add_0_r.
  - unfold bind. rewrite (extract_member_spec _ _ _ _ _ _ Hn).
    destruct (is_file_member prefix n); rewrite IH; simpl; [|done].
    do 2 f_equal. lia.
Qed.

Lemma write_all_snoc (ws : list (list string * list byte))
    (w : list string * list byte) (d : gmap (list string) (list byte)) :
  write_all (ws ++ [w]) d = <[w.1 := w.2]> (write_all ws d).
Proof. unfold write_all. by rewrite foldl_app. Qed.

Lemma write_all_lookup (ws : list (list string * list byte))
    (d : gmap (list string) (list byte)) (k : list string) :
  write_all ws d !! k = match last_write ws k with
                        | Some content => Some content
                        | None => d !! k
                        end.
Proof.
  unfold last_write.
  induction ws as [|w ws IH] using rev_ind; [done|].
  rewrite write_all_snoc, reverse_snoc. simpl.
  case_bool_decide as Hk.
  - simpl. by rewrite <- Hk, lookup_insert_eq.
  - by rewrite lookup_insert_ne.
Qed.


(** X8.  After the extraction a location holds the bytes of the last
    copied member whose path leads to it, and every other location is as it
    was. *)
Theorem extract_overrides_last_member_wins (z : zipfile) (prefix : string)
    (dest : path) (d : gmap (list string) (list byte)) (k : list string) :
  (extract_overrides E z prefix dest d).1 !! k
  = match last_write (extraction_writes z prefix dest) k with
    | Some content => Some content
    | None => d !! k
    end.
Proof using mkdir_allowed open_allowed.
  rewrite extract_overrides_spec. apply write_all_lookup.
Qed.

End ExtractFacts.

(** ** More on [download_file] *)

Section TransferFacts.
Context {RT : Runtime}.
Variable E : env.

Lemma cleaned_other (dest : path) (d : gmap (list string) (list byte))
    (k : list string) :
  k ≠ resolve dest → cleaned E dest d !! k = d !! k.
Proof.
  intros Hk. unfold cleaned.
  destruct (_ && _); [|done]. by rewrite lookup_delete_ne.
Qed.

Lemma cleaned_unlink (dest : path) (d : gmap (list string) (list byte)) :
  cleaned E dest d
  = if unlink_ok E (resolve dest) then delete (resolve dest) d else d.
Proof.
  unfold cleaned, Fs.exists_. case_bool_decide as Hex; simpl; [done|].
  destruct (unlink_ok E (resolve dest)); [|done].
  symmetry. apply delete_id. by apply eq_None_not_Some.
Qed.

Lemma disk_after_other (url : json) (dest : path) (eh : json)
    (d : gmap (list string) (list byte)) (k : list string) :
  k ≠ resolve dest → disk_after E url dest eh d !! k = d !! k.
Proof.
  intros Hk. unfold disk_after.
  destruct (_ && _); [|done].
  destruct url as [| | |u| |]; try by apply cleaned_other.
  destruct (requests_get E u) as [c|c|s]; try by apply cleaned_other.
  destruct (open_ok E (resolve dest)); [|by apply cleaned_other].
  destruct (stream_error s).
  - by rewrite cleaned_other, lookup_insert_ne.
  - by rewrite lookup_insert_ne.
Qed.

(** X9.  A download changes no file but its destination. *)
Theorem download_touches_only_its_destination (url : json) (dest : path)
    (expected_hashes : json) (position : nat) (size : json)
    (d : gmap (list string) (list byte)) (k : list string) :
  k ≠ resolve dest →
  (download_file E url dest expected_hashes position size d).1 !! k = d !! k.
Proof.
  intros Hk. rewrite download_file_spec. by apply disk_after_other.
Qed.

Lemma outcome_ok (url : json) (dest : path) (eh : json) (b : bool) :
  outcome E url dest eh = Ok b →
  b = true
  ∧ requests_available E = true ∧ tqdm_available E = true
  ∧ mkdir_ok E (resolve (parent dest)) = true
  ∧ is_ok (new_hasher "sha1" eh) = true
  ∧ is_ok (new_hasher "sha512" eh) = true
  ∧ ∃ u s, url = JStr u ∧ requests_get E u = Streaming s
           ∧ open_ok E (resolve dest) = true ∧ stream_error s = None.
Proof.
  unfold outcome, rbind.
  destruct (requests_available E); simpl; [|done].
  destruct (tqdm_available E); simpl; [|done].
  destruct (mkdir_ok E (resolve (parent dest))); simpl; [|done].
  destruct (new_hasher "sha1" eh); [|done].
  destruct (new_hasher "sha512" eh); [|done].
  destruct url as [| | |u| |]; try done.
  destruct (requests_get E u) as [c|c|s] eqn:Hget; try done.
  destruct (open_ok E (resolve dest)) eqn:Hop; [|done].
  destruct (stream_error s) eqn:Herr; [done|].
  destruct (verify dest eh _ _); [|done].
  intros [= <-]. split_and!; try done. by exists u, s.
Qed.

(** X10.  When a download returns, it returns [True] and the destination
    holds exactly the bytes of the response: its chunks in order, the empty
    ones left out, whatever was at the destination before. *)
Theorem download_success_writes_the_body (url : json) (dest : path)
    (expected_hashes : json) (position : nat) (size : json)
    (d d' : gmap (list string) (list byte)) (b : bool) :
  download_file E url dest expected_hashes position size d = (d', Ok b) →
  b = true
  ∧ ∃ u s, url = JStr u ∧ requests_get E u = Streaming s
           ∧ stream_error s = None
           ∧ d' !! resolve dest = Some (concat (chunks s)).
Proof.
  rewrite download_file_spec. intros [= <- Hout].
  destruct (outcome_ok _ _ _ _ Hout)
    as (-> & Hreq & Htq & Hmk & Hh1 & Hh512 & u & s & -> & Hget & Hop & Herr).
  split; [done|]. exists u, s. split_and!; try done.
  unfold disk_after. rewrite Hreq, Htq, Hmk, Hh1, Hh512, Hget, Hop, Herr.
  simpl. apply lookup_insert_eq.
Qed.

Lemma new_hasher_dict (algo : string) (m : gmap string json) :
  new_hasher algo (JObj m)
  = Ok (if bool_decide (is_Some (m !! algo)) then Some [] else None).
Proof.
  unfold new_hasher, contains, rbind. simpl.
  case_bool_decide as Hempty; simpl; [|done].
  subst m. rewrite lookup_empty.
  by rewrite bool_decide_eq_false_2 by (by intros [? ?]).
Qed.

Lemma verify_one_match (label algo : string) (hexdigest : list byte → string)
    (dest : path) (m : gmap string json) (data : list byte) :
  (∀ v, m !! algo = Some v →
        ∃ x, v = JStr x ∧ lower x = lower (hexdigest data)) →
  verify_one label algo hexdigest dest (JObj m)
    (update (if bool_decide (is_Some (m !! algo)) then Some [] else None) data)
  = Ok tt.
Proof.
  intros Hm. unfold verify_one, contains, getitem, rbind.
  case_bool_decide as Hsome; [|done]. simpl.
  destruct (m !! algo) as [v|] eqn:Hv; [|by destruct Hsome].
  destruct (Hm v eq_refl) as (x & -> & Hx).
  by rewrite bool_decide_eq_false_2 by (intros Hne; by rewrite Hx in Hne).
Qed.

(** X11.  Digests are compared without regard to case: a transfer that
    completes is accepted when every expected digest given under [sha1] or
    [sha512] is a string equal, up to case, to the digest of the bytes
    received; the file is then on the disk. *)
Theorem matching_digests_are_accepted (u : string) (dest : path)
    (m : gmap string json) (s : stream) (position : nat) (size : json)
    (d : gmap (list string) (list byte)) :
  requests_available E = true →
  tqdm_available E = true →
  mkdir_ok E (resolve (parent dest)) = true →
  open_ok E (resolve dest) = true →
  requests_get E u = Streaming s →
  stream_error s = None →
  (∀ v, m !! "sha1" = Some v →
        ∃ x, v = JStr x ∧ lower x = lower (sha1_hexdigest (body s))) →
  (∀ v, m !! "sha512" = Some v →
        ∃ x, v = JStr x ∧ lower x = lower (sha512_hexdigest (body s))) →
  download_file E (JStr u) dest (JObj m) position size d
  = (<[resolve dest := body s]> d, Ok true).
Proof.
  intros Hreq Htq Hmk Hop Hget Herr H1 H512.
  rewrite download_file_spec. unfold disk_after, outcome.
  rewrite Hreq, Htq, Hmk, Hget, Hop, Herr, !new_hasher_dict.
  cbn [negb andb is_ok rbind]. f_equal. unfold verify.
  pose proof (verify_one_match "SHA1" "sha1" sha1_hexdigest dest m (body s) H1)
    as Hv1.
  pose proof (verify_one_match "SHA512" "sha512" sha512_hexdigest dest m
                (body s) H512) as Hv512.
  unfold hasher in Hv1, Hv512. rewrite Hv1, Hv512.
  by destruct (truthy (JObj m)).
Qed.

(** X12.  A request that fails before any byte is written still runs the
    clean-up: a file that was at the destination before the call is removed
    (left when it cannot be removed), and the error raised is the
    transport's. *)
Theorem failed_request_removes_existing_file (u : string) (dest : path)
    (expected_hashes : json) (cause : string) (position : nat) (size : json)
    (d : gmap (list string) (list byte)) :
  requests_available E = true →
  tqdm_available E = true →
  mkdir_ok E (resolve (parent dest)) = true →
  is_ok (new_hasher "sha1" expected_hashes) = true →
  is_ok (new_hasher "sha512" expected_hashes) = true →
  requests_get E u = ConnectFail cause ∨ requests_get E u = StatusFail cause →
  download_file E (JStr u) dest expected_hashes position size d
  = (if unlink_ok E (resolve dest) then delete (resolve dest) d else d,
     Raise (RequestException cause)).
Proof.
  intros Hreq Htq Hmk Hh1 Hh512 Hget.
  rewrite download_file_spec. unfold disk_after, outcome.
  rewrite Hreq, Htq, Hmk, Hh1, Hh512. simpl.
  destruct (new_hasher "sha1" expected_hashes); [|done].
  destruct (new_hasher "sha512" expected_hashes); [|done]. simpl.
  destruct Hget as [-> | ->]; by rewrite cleaned_unlink.
Qed.

(** X13.  A call that fails before the transfer starts (a library is
    missing, the parent directory cannot be created, or the expected hashes
    are a number or a boolean) raises and leaves the disk as it was, a file
    already at the destination included. *)
Theorem early_failure_leaves_the_disk (url : json) (dest : path)
    (expected_hashes : json) (position : nat) (size : json)
    (d : gmap (list string) (list byte)) :
  requests_available E = false ∨ tqdm_available E = false
  ∨ mkdir_ok E (resolve (parent dest)) = false
  ∨ is_ok (new_hasher "sha1" expected_hashes) = false
  ∨ is_ok (new_hasher "sha512" expected_hashes) = false →
  ∃ e, download_file E url dest expected_hashes position size d = (d, Raise e).
Proof.
  intros Hearly. rewrite download_file_spec. unfold disk_after, outcome, rbind.
  destruct (requests_available E); simpl; [|by eexists].
  destruct (tqdm_available E); simpl; [|by eexists].
  destruct (mkdir_ok E (resolve (parent dest))); simpl; [|by eexists].
  destruct (new_hasher "sha1" expected_hashes); simpl; [|by eexists].
  destruct (new_hasher "sha512" expected_hashes); simpl; [|by eexists].
  by destruct Hearly as [?|[?|[?|[?|?]]]].
Qed.

End TransferFacts.

(** ** More on the scheduling loop and the pool *)

Section PoolFacts.
Context {RT : Runtime}.
Variable E : env.
Variable P : pool.







(** X15.  Of a list of download URLs only the first is ever used: the
    others change nothing of what the loop does with the entry, and the
    future submitted has the first as its URL. *)
Theorem only_first_url_is_used (outdir : path) (vh : bool) (total i : nat)
    (m : gmap string json) (first : json) (others : list json) (st : sched) :
  schedule_entry outdir vh total i
    (JObj (<["downloads" := JArr (first :: others)]> m)) st
  = schedule_entry outdir vh total i
      (JObj (<["downloads" := JArr [first]]> m)) st
  ∧ ∀ st', schedule_entry outdir vh total i
             (JObj (<["downloads" := JArr (first :: others)]> m)) st = Ok st' →
           ∀ t, t ∈ futures st' → t ∈ futures st ∨ url t = first.
Proof.
  unfold schedule_entry, rbind. cbn [get].
  rewrite !lookup_insert_eq, !(lookup_insert_ne _ "downloads") by done.
  cbn [default from_option id py_or truthy negb getitem0]. split; [done|].
  destruct (truthy (default JNull (m !! "path"))); cbn [negb].
  - destruct (joinpath_value outdir (default JNull (m !! "path"))); [|done].
    destruct vh; intros st' [= <-] t; cbn [futures];
      rewrite elem_of_app, list_elem_of_singleton; intros [?| ->]; auto.
  - intros st' [= <-] t. cbn [futures]. auto.
Qed.

Lemma tasks_of_positions (total i pos : nat) (acts : list action) :
  position <$> tasks_of total i pos acts
  = seq pos (length (tasks_of total i pos acts)).
Proof.
  revert i pos. induction acts as [|a acts IH]; intros i pos; [done|].
  destruct a; simpl; by rewrite ?IH.
Qed.

(** X16.  The progress-bar positions handed to the futures are 0, 1, 2,
    ... in submission order: a skipped entry takes none, and the scheduled
    counter is the number of futures. *)
Theorem progress_positions_are_consecutive (outdir : path) (vh : bool)
    (total i : nat) (entries : list json) (st : sched) (r : result unit) :
  schedule outdir vh total i entries idle = (st, r) →
  position <$> futures st = seq 0 (length (futures st))
  ∧ scheduled st = length (futures st)
  ∧ position_counter st = length (futures st).
Proof.
  rewrite schedule_spec. intros [= <- _]. cbn [futures scheduled position_counter idle app].
  split_and!.
  - apply tasks_of_positions.
  - done.
  - done.
Qed.

Lemma decide_entry_submit_data (outdir : path) (vh : bool) (entry : json)
    (p u : json) (d : path) (h sz : json) :
  decide_entry outdir vh entry = Ok (ASubmit p u d h sz) →
  get entry "path" = Ok p
  ∧ (∃ d0, get entry "downloads" = Ok d0 ∧ getitem0 (downloads_of d0) = Ok u)
  ∧ (if vh then get entry "hashes" else Ok JNull) = Ok h
  ∧ (∃ sz0, get entry "fileSize" = Ok sz0 ∧ sz = py_or sz0 JNull).
Proof.
  unfold decide_entry, rbind.
  destruct (get entry "path") as [p'|]; [|done].
  destruct (truthy p'); simpl; [|done].
  destruct (get entry "downloads") as [d0|]; [|done].
  destruct (truthy (downloads_of d0)); simpl; [|done].
  destruct (getitem0 (downloads_of d0)) as [u'|] eqn:Hu; [|done].
  destruct (joinpath_value outdir p'); [|done].
  destruct (if vh then get entry "hashes" else Ok JNull) as [h'|]; [|done].
  destruct (get entry "fileSize") as [sz0|]; [|done].
  intros [= <- <- <- <- <-]. split_and!; eauto.
Qed.

(** X17.  A future carries the data of the entry at its index, counted
    from 1: that entry's path, the first of its downloads, its hashes when
    verification is on and none otherwise, its file size or none, and the
    number of filtered entries as total. *)
Theorem future_carries_its_entry (outdir : path) (vh : bool)
    (entries : list json) (st : sched) (r : result unit) (t : task) :
  schedule outdir vh (length entries) 1 entries idle = (st, r) →
  t ∈ futures st →
  ∃ entry,
    entries !! (idx t - 1) = Some entry ∧ (1 ≤ idx t ≤ length entries)%nat
    ∧ total t = length entries
    ∧ get entry "path" = Ok (path_of t)
    ∧ (∃ d0, get entry "downloads" = Ok d0
             ∧ getitem0 (downloads_of d0) = Ok (url t))
    ∧ (if vh then get entry "hashes" else Ok JNull) = Ok (expected_hashes t)
    ∧ (∃ sz0, get entry "fileSize" = Ok sz0 ∧ size t = py_or sz0 JNull).
Proof.
  rewrite schedule_idle. intros [= <- _]. cbn [futures].
  intros (k & Hk & Hi & Htot)%elem_of_tasks_of.
  apply decide_all_lookup in Hk as (entry & He & Hd).
  apply decide_entry_submit_data in Hd as (Hp & Hu & Hh & Hs).
  exists entry. replace (idx t - 1) with k by lia.
  apply lookup_lt_Some in He as Hlt.
  split_and!; try done; lia.
Qed.

End PoolFacts.

(** ** More on [process_mrpack] and [main] *)

Section RunFacts.
Context {RT : Runtime}.
Variable E : env.
Variable P : pool.

Lemma main_raises (a : args) (s s' : state) (e : exn) :
  process_mrpack E P (mrpack a) (outdir_arg a) (verify_hashes_arg a)
                 (server_files_only_arg a) s = (s', Raise e) →
  main E P a s = ({| files := files s'; stdout := stdout s' ++ [Error e] |}, 2%Z).
Proof. intros Hp. unfold main, try_except, bind, ret, print. by rewrite Hp. Qed.


(** X18.  A manifest that does not parse stops the run before anything is
    written: [main] prints the parser's error, exits with 2, and the disk is
    as it was, overrides not extracted. *)
Theorem malformed_manifest_writes_nothing (a : args) (s : state)
    (bytes : list byte) (z : zipfile) (name : string) (e : exn) :
  files s !! resolve (mrpack a) = Some bytes →
  zip_members bytes = Some z →
  (find_index_and_overrides z).1.1 = Some name →
  json_loads (read z name) = Raise e →
  main E P a s = ({| files := files s; stdout := stdout s ++ [Error e] |}, 2%Z).
Proof.
  intros Hfile Hzip Hname Hjson.
  rewrite (main_raises a s s e); [done|].
  unfold process_mrpack. rewrite Hfile, Hzip. unfold process_archive.
  destruct (find_index_and_overrides z) as [[index_member has_ov] prefix].
  cbn [fst] in Hname. subst index_member.
  unfold bind, lift. by rewrite Hjson.
Qed.


Lemma server_relevant_raises (entry : json) (e : exn) :
  server_relevant entry = Raise e →
  e = AttributeError ∧ env_typed entry = false.
Proof.
  intros Hr. split.
  - unfold server_relevant, rbind in Hr.
    destruct (get entry "env") as [env0|] eqn:Henv.
    + destruct (get (py_or env0 (JObj ∅)) "server") eqn:Hs; [done|].
      destruct (py_or env0 (JObj ∅)); simpl in Hs; congruence.
    + destruct entry; simpl in Henv; congruence.
  - destruct (env_typed entry) eqn:Ht; [|done].
    by rewrite server_relevant_typed in Hr.
Qed.

(** X20.  Filtering keeps the order of the entries and adds none.  It
    raises only in the server mode, only [AttributeError], and only when
    some entry is not an object or has an [env] that is not an object: then
    the run stops before any download is scheduled. *)
Theorem filter_keeps_order_or_raises (sfo : bool) (entries : list json) :
  (∀ kept, filter_files sfo entries = Ok kept →
           kept `sublist_of` entries
           ∧ (sfo = true → Forall (fun entry => server_relevant entry = Ok true)
                                  kept))
  ∧ (∀ e, filter_files sfo entries = Raise e →
          sfo = true ∧ e = AttributeError
          ∧ ∃ entry, entry ∈ entries ∧ env_typed entry = false).
Proof.
  induction entries as [|entry rest [IHok IHraise]]; cbn [filter_files].
  - split; [|done]. intros kept [= <-]. split; [done|by constructor].
  - unfold rbind.
    destruct (if sfo then server_relevant entry else Ok true) as [keep|e0]
      eqn:Hkeep.
    + destruct (filter_files sfo rest) as [kept0|e1].
      * split; [|done]. intros kept [= <-].
        destruct (IHok kept0 eq_refl) as [Hsub Hrel].
        destruct keep.
        -- split; [by apply sublist_skip|]. intros ->.
           constructor; [done|by apply Hrel].
        -- split; [by apply sublist_cons|done].
      * split; [done|]. intros e [= <-].
        destruct (IHraise e1 eq_refl) as (Hs & He & entry' & Hin & Ht).
        split_and!; [done|done|]. exists entry'. split; [by right|done].
    + split; [done|]. intros e [= <-].
      destruct sfo; [|done].
      apply server_relevant_raises in Hkeep as [-> Ht].
      split_and!; [done|done|]. exists entry. split; [by left|done].
Qed.

Lemma decide_entry_raises (outdir : path) (vh : bool) (entry : json) (e : exn) :
  decide_entry outdir vh entry = Raise e →
  e = AttributeError ∨ e = TypeError ∨ e = KeyError.
Proof.
  unfold decide_entry, rbind.
  destruct entry as [| | | | |m]; cbn [get]; try (intros [= <-]; auto).
  destruct (truthy (default JNull (m !! "path"))); cbn [negb]; [|done].
  destruct (truthy (downloads_of (default JNull (m !! "downloads")))) eqn:Ht;
    cbn [negb]; [|done].
  destruct (getitem0 _) as [u|e0] eqn:Hu.
  - destruct (joinpath_value outdir _) as [d|e1] eqn:Hj.
    + by destruct vh.
    + intros [= <-]. destruct (default JNull (m !! "path")); simpl in Hj;
        try (injection Hj as <-; auto); done.
  - intros [= <-]. rewrite truthy_downloads_of in Ht.
    unfold downloads_of, py_or in Hu. rewrite Ht in Hu.
    destruct (default JNull (m !! "downloads")) as [| | |u|[|x l]|];
      simpl in Hu, Ht; try done; try (injection Hu as <-; auto).
Qed.

Lemma decide_all_raises (outdir : path) (vh : bool) (entries : list json)
    (e : exn) :
  (decide_all outdir vh entries).2 = Some e →
  (e = AttributeError ∨ e = TypeError ∨ e = KeyError)
  ∧ (length (decide_all outdir vh entries).1 < length entries)%nat.
Proof.
  induction entries as [|entry rest IH]; cbn [decide_all]; [done|].
  destruct (decide_entry outdir vh entry) as [a|e0] eqn:Hd.
  - destruct (decide_all outdir vh rest) as [acts err]. cbn [fst snd] in *.
    intros Herr. destruct (IH Herr) as [? ?]. split; [done|]. simpl. lia.
  - intros [= <-]. split; [by eapply decide_entry_raises|]. simpl. lia.
Qed.

(** X21.  When the scheduling loop raises on an entry, the error is an
    [AttributeError], a [TypeError] or a [KeyError]; the entries after it
    are never looked at; the downloads submitted before it still run and
    their files are written, but no failure line and no summary is
    printed. *)
Theorem aborted_scheduling_still_downloads (outdir : path) (vh : bool)
    (entries : list json) (s s' : state) (e : exn) :
  download_phase E P outdir vh entries s = (s', Raise e) →
  (e = AttributeError ∨ e = TypeError ∨ e = KeyError)
  ∧ files s'
    = run_disks E
        (as_completed P
           (futures (schedule outdir vh (length entries) 1 entries idle).1))
        (files s)
  ∧ stdout s'
    = stdout s ++ printed (schedule outdir vh (length entries) 1 entries idle).1
  ∧ (length (printed (schedule outdir vh (length entries) 1 entries idle).1)
     < length entries)%nat
  ∧ failed_indices (stdout s') = failed_indices (stdout s).
Proof.
  rewrite download_phase_spec, schedule_idle. cbn [fst futures printed]. cbn zeta.
  destruct ((decide_all outdir vh entries).2) as [e0|] eqn:Herr; [|done].
  intros [= <- <-]. cbn [files stdout].
  destruct (decide_all_raises outdir vh entries e0 Herr) as [He Hlen].
  split_and!; try done.
  - assert (Hl : ∀ i acts, length (lines_of (length entries) i acts)
                           = length acts).
    { intros i acts. revert i. induction acts as [|x acts IH]; intros i; simpl;
        [done|by rewrite IH]. }
    by rewrite Hl.
  - by rewrite failed_indices_app, failed_indices_lines, app_nil_r.
Qed.

End RunFacts.

(** ** The further properties on concrete inputs *)

Module MoreRuns.
Import Demo Samples.

(** The pack named ["Demo Pack: v1"] is unpacked into [Demo Pack_ v1] next to
    the archive. *)
Lemma default_outdir_next_to_archive_witness :
  default_outdir (RT := demo_runtime JNull) pack_path (Some (JObj named_pack))
  = Ok (parent pack_path
        ++ (if String.eqb (sanitize_for_filename "Demo Pack: v1") ""
               || String.eqb (sanitize_for_filename "Demo Pack: v1") "."
            then [] else [sanitize_for_filename "Demo Pack: v1"]))
  ∧ default_outdir (RT := demo_runtime JNull) pack_path (Some (JObj named_pack))
    = Ok ["home"; "u"; "Demo Pack_ v1"].
Proof.
  split.
  - apply (default_outdir_next_to_archive (RT := demo_runtime JNull) pack_path
             named_pack "Demo Pack: v1"); [reflexivity|].
    intros Heq. discriminate Heq.
  - vm_compute. reflexivity.
Defined.

Lemma manifest_name_in_any_directory_witness :
  is_index_name "Modrinth.Index.JSON"
  = String.eqb (lower "Modrinth.Index.JSON") "modrinth.index.json"
  ∧ is_index_name ("pack/sub" +:+ "/" +:+ "Modrinth.Index.JSON")
    = is_index_name "Modrinth.Index.JSON"
  ∧ is_index_name ("pack/sub" +:+ "\" +:+ "Modrinth.Index.JSON")
    = is_index_name "Modrinth.Index.JSON".
Proof.
  apply (manifest_name_in_any_directory "pack/sub" "Modrinth.Index.JSON");
    apply (bool_decide_unpack _); vm_compute; exact I.
Defined.


(** The second copy of [a.cfg] is the one left on the disk. *)
Lemma extract_overrides_last_member_wins_witness :
  (extract_overrides demo_env overrides_zip "overrides/" out_root ∅).1
    !! resolve a_cfg
  = match last_write (extraction_writes overrides_zip "overrides/" out_root)
                     (resolve a_cfg) with
    | Some content => Some content
    | None => (∅ : gmap (list string) (list byte)) !! resolve a_cfg
    end
  ∧ last_write (extraction_writes overrides_zip "overrides/" out_root)
               (resolve a_cfg) = Some (bytes "x=2").
Proof.
  split.
  - apply (extract_overrides_last_member_wins demo_env); intros p; reflexivity.
  - vm_compute. reflexivity.
Defined.

Lemma download_touches_only_its_destination_witness :
  (download_file (RT := demo_runtime JNull) demo_env
     (JStr "https://cdn.example/a.jar") b_jar JNull 0 JNull old_disk).1
    !! resolve d_jar
  = old_disk !! resolve d_jar.
Proof.
  apply (download_touches_only_its_destination (RT := demo_runtime JNull)
           demo_env).
  intros Heq. vm_compute in Heq. discriminate Heq.
Defined.

Lemma download_success_writes_the_body_witness :
  true = true
  ∧ ∃ u s, JStr "https://cdn.example/a.jar" = JStr u
           ∧ requests_get demo_env u = Streaming s
           ∧ stream_error s = None
           ∧ (download_file (RT := demo_runtime JNull) demo_env
                (JStr "https://cdn.example/a.jar") b_jar JNull 0 JNull old_disk).1
               !! resolve b_jar
             = Some (concat (chunks s)).
Proof.
  apply (download_success_writes_the_body (RT := demo_runtime JNull) demo_env
           (JStr "https://cdn.example/a.jar") b_jar JNull 0 JNull old_disk).
  vm_compute. reflexivity.
Defined.

(** The SHA-1 written in capitals is accepted. *)
Lemma matching_digests_are_accepted_witness :
  download_file (RT := demo_runtime JNull) demo_env
    (JStr "https://cdn.example/a.jar") b_jar (JObj good_hashes) 0 JNull ∅
  = (<[resolve b_jar := body abc_stream]> ∅, Ok true).
Proof.
  apply (matching_digests_are_accepted (RT := demo_runtime JNull) demo_env
           "https://cdn.example/a.jar" b_jar good_hashes abc_stream 0 JNull ∅);
    try reflexivity.
  - intros v Hv. vm_compute in Hv. injection Hv as <-.
    eexists. split; [reflexivity|]. vm_compute. reflexivity.
  - intros v Hv. vm_compute in Hv. discriminate Hv.
Defined.

(** The earlier copy of [d.jar] is gone after the refused connection. *)
Lemma failed_request_removes_existing_file_witness :
  download_file (RT := demo_runtime JNull) demo_env
    (JStr "https://down.example/x.jar") d_jar JNull 0 JNull old_disk
  = (if unlink_ok demo_env (resolve d_jar) then delete (resolve d_jar) old_disk
     else old_disk,
     Raise (RequestException "Connection refused")).
Proof.
  apply (failed_request_removes_existing_file (RT := demo_runtime JNull)
           demo_env "https://down.example/x.jar" d_jar JNull
           "Connection refused" 0 JNull old_disk); try reflexivity.
  left. reflexivity.
Defined.

Lemma early_failure_leaves_the_disk_witness :
  ∃ e, download_file (RT := demo_runtime JNull) no_requests_env
         (JStr "https://down.example/x.jar") d_jar JNull 0 JNull old_disk
       = (old_disk, Raise e).
Proof.
  apply (early_failure_leaves_the_disk (RT := demo_runtime JNull)
           no_requests_env).
  left. reflexivity.
Defined.


Lemma progress_positions_are_consecutive_witness :
  let st := (schedule out_root false 3 1 skip_entries idle).1 in
  position <$> futures st = seq 0 (length (futures st))
  ∧ scheduled st = length (futures st)
  ∧ position_counter st = length (futures st).
Proof.
  intros st.
  apply (progress_positions_are_consecutive out_root false 3 1 skip_entries st
           (schedule out_root false 3 1 skip_entries idle).2).
  apply surjective_pairing.
Defined.

Lemma future_carries_its_entry_witness :
  ∃ entry,
    three_files !! (idx a_task - 1) = Some entry
    ∧ (1 ≤ idx a_task ≤ length three_files)%nat
    ∧ total a_task = length three_files
    ∧ get entry "path" = Ok (path_of a_task)
    ∧ (∃ d0, get entry "downloads" = Ok d0
             ∧ getitem0 (downloads_of d0) = Ok (url a_task))
    ∧ Ok JNull = Ok (expected_hashes a_task)
    ∧ (∃ sz0, get entry "fileSize" = Ok sz0 ∧ size a_task = py_or sz0 JNull).
Proof.
  apply (future_carries_its_entry out_root false three_files
           (schedule out_root false (length three_files) 1 three_files idle).1
           (schedule out_root false (length three_files) 1 three_files idle).2
           a_task).
  - apply surjective_pairing.
  - apply list_elem_of_lookup. exists 0. vm_compute. reflexivity.
Defined.

(** The archive whose manifest does not parse leaves the disk alone. *)
Lemma malformed_manifest_writes_nothing_witness :
  main (RT := sample_runtime manifest_zip (Raise parse_error)) demo_env
       fifo_pool demo_args start
  = ({| files := files start; stdout := stdout start ++ [Error parse_error] |},
     2%Z).
Proof.
  apply (malformed_manifest_writes_nothing
           (RT := sample_runtime manifest_zip (Raise parse_error)) demo_env
           fifo_pool demo_args start (bytes "PK-pack") manifest_zip
           "modrinth.index.json" parse_error); vm_compute; reflexivity.
Defined.


(** A number among the entries stops the loop after the first download was
    submitted: it still runs, and nothing is reported. *)
Lemma aborted_scheduling_still_downloads_witness :
  let run := download_phase (RT := demo_runtime JNull) demo_env fifo_pool
               out_root false [good_entry; JNum 5; broken_entry] empty_state in
  let st := (schedule out_root false 3 1 [good_entry; JNum 5; broken_entry]
                      idle).1 in
  run.2 = Raise AttributeError
  ∧ (AttributeError = AttributeError ∨ AttributeError = TypeError
     ∨ AttributeError = KeyError)
  ∧ files run.1
    = run_disks demo_env
        (as_completed fifo_pool (futures st)) (files empty_state)
  ∧ stdout run.1 = stdout empty_state ++ printed st
  ∧ (length (printed st) < 3)%nat
  ∧ failed_indices (stdout run.1) = failed_indices (stdout empty_state).
Proof.
  intros run st. split; [vm_compute; reflexivity|].
  apply (aborted_scheduling_still_downloads (RT := demo_runtime JNull) demo_env
           fifo_pool out_root false [good_entry; JNum 5; broken_entry]
           empty_state run.1 AttributeError).
  vm_compute. reflexivity.
Defined.

End MoreRuns.
